(** * The playground's multi-file editing session

    A shallow embedding of the session controller of the red-knot
    playground: the [filesReducer] state machine of [Playground.tsx], the
    handlers that sequence engine calls before dispatching to it, the
    snapshot serialisation, and the [useCheckResult] pipeline of
    [Editor/Chrome.tsx].

    Numbers that the code uses as file ids, revisions and array positions
    are integers ([Z]); JavaScript objects used as dictionaries are finite
    maps; arrays are lists. *)

From Stdlib Require Import Ascii String.
From stdpp Require Import gmap strings list fin_maps.

Local Open Scope Z_scope.

(** ** JavaScript values and array operations used by the code *)

Module JS.

(** What a [throw] carries: an [Error] object (with its [message]) or any
    other value (with its string conversion). *)
Inductive thrown : Type :=
| ErrorObject (message : string)
| OtherValue (text : string).

(** The completion of a call: it returns or it throws. *)
Inductive completion (A : Type) : Type :=
| Normal (a : A)
| Throw (e : thrown).
Global Arguments Normal {A} a.
Global Arguments Throw {A} e.

Definition bind {A B} (c : completion A) (k : A → completion B) : completion B :=
  match c with
  | Normal a => k a
  | Throw e => Throw e
  end.

(** Reading a property of [undefined] raises a [TypeError]. *)
Definition TypeError_property_of_undefined (prop : string) : thrown :=
  ErrorObject ("Cannot read properties of undefined (reading '" +:+ prop +:+ "')").

(** [o.prop] where [o] may be [undefined] ([None]). *)
Definition property {A B} (prop : string) (get : A → B) (o : option A) : completion B :=
  match o with
  | Some a => Normal (get a)
  | None => Throw (TypeError_property_of_undefined prop)
  end.

Section arrays.
Context {A : Type}.

Fixpoint findIndex_from (p : A → bool) (l : list A) (i : Z) : Z :=
  match l with
  | [] => -1
  | x :: l' => if p x then i else findIndex_from p l' (i + 1)
  end.

(** [l.findIndex(p)]: the first position that satisfies [p], or -1. *)
Definition findIndex (p : A → bool) (l : list A) : Z := findIndex_from p l 0.

(** [l.find(p)]: the first element that satisfies [p], or [undefined]. *)
Fixpoint find (p : A → bool) (l : list A) : option A :=
  match l with
  | [] => None
  | x :: l' => if p x then Some x else find p l'
  end.

(** [l[i]]: [undefined] outside [0 .. length-1]. *)
Definition at_index (l : list A) (i : Z) : option A :=
  if decide (0 ≤ i) then l !! Z.to_nat i else None.

(** [l.splice(start, deleteCount, item)] on a copy of [l]: the array
    after the call. A negative [start] counts from the end. *)
Definition splice (l : list A) (start deleteCount : Z) (item : A) : list A :=
  let len := Z.of_nat (length l) in
  let actualStart :=
    if decide (start < 0) then Z.max (len + start) 0 else Z.min start len in
  let actualDeleteCount := Z.min (Z.max deleteCount 0) (len - actualStart) in
  take (Z.to_nat actualStart) l ++ item ::
  drop (Z.to_nat (actualStart + actualDeleteCount)) l.
End arrays.

End JS.

Import JS.

Global Instance completion_bind : MBind completion := λ A B k c, JS.bind c k.
Global Instance completion_ret : MRet completion := @Normal.

(** ** SessionStore: the data model *)

(** An engine file handle is an opaque reference; the store only keeps it. *)
Inductive FileHandle : Type := file_handle (n : N).

Global Instance FileHandle_eq_dec : EqDecision FileHandle.
Proof. solve_decision. Defined.

Definition FileId : Type := Z.

Record FileRecord : Type := { id : FileId; name : string }.

Global Instance FileRecord_eq_dec : EqDecision FileRecord.
Proof. solve_decision. Defined.

Record FilesState : Type := {
  selected : option FileId;
  index : list FileRecord;
  handles : gmap Z (option FileHandle);
  contents : gmap Z string;
  revision : Z;
  nextId : FileId;
}.

Inductive FileAction : Type :=
| add (handle : option FileHandle) (name : string) (content : string)
| change (id : FileId) (content : string)
| rename (id : FileId) (to : string) (newHandle : option FileHandle)
| remove (id : FileId)
| selectFile (id : FileId)
| selectFileByName (name : string).

Definition SETTINGS_FILE_NAME : string := "knot.json".

(** The state [useReducer] starts from. *)
Definition initialFiles : FilesState :=
  {| selected := None; index := []; handles := ∅; contents := ∅;
     revision := 0; nextId := 0 |}.

(** ** SessionStore: the transition function *)

Definition filesReducer (state : FilesState) (action : FileAction)
  : completion FilesState :=
  match action with
  | add handle nm content =>
      let i := nextId state in
      Normal {| selected := Some i;
                index := index state ++ [{| id := i; name := nm |}];
                handles := <[i := handle]> (handles state);
                contents := <[i := content]> (contents state);
                revision := revision state + 1;
                nextId := nextId state + 1 |}
  | change i content =>
      Normal {| selected := selected state;
                index := index state;
                handles := handles state;
                contents := <[i := content]> (contents state);
                revision := revision state + 1;
                nextId := nextId state |}
  | remove i =>
      let contents' := delete i (contents state) in
      let handles' := delete i (handles state) in
      sel ← (if decide (selected state = Some i) then
               let ix := findIndex (λ file, bool_decide (id file = i)) (index state) in
               j ← property "id" id
                     (if decide (ix > 0) then at_index (index state) (ix - 1)
                      else at_index (index state) (ix + 1));
               Normal (Some j)
             else Normal (selected state));
      Normal {| selected := sel;
                index := filter (λ file, id file ≠ i) (index state);
                handles := handles';
                contents := contents';
                revision := revision state + 1;
                nextId := nextId state |}
  | rename i to newHandle =>
      let ix := findIndex (λ file, bool_decide (id file = i)) (index state) in
      let newIndex := splice (index state) ix 1 {| id := i; name := to |} in
      Normal {| selected := selected state;
                index := newIndex;
                handles := <[i := newHandle]> (handles state);
                contents := contents state;
                revision := revision state;
                nextId := nextId state |}
  | selectFile i =>
      Normal {| selected := Some i;
                index := index state;
                handles := handles state;
                contents := contents state;
                revision := revision state;
                nextId := nextId state |}
  | selectFileByName nm =>
      let sel := id <$> find (λ file, bool_decide (name file = nm)) (index state) in
      Normal {| selected := sel;
                index := index state;
                handles := handles state;
                contents := contents state;
                revision := revision state;
                nextId := nextId state |}
  end.

(** Dispatching a list of actions in order; a throw stops the run. *)
Fixpoint dispatchAll (state : FilesState) (actions : list FileAction)
  : completion FilesState :=
  match actions with
  | [] => Normal state
  | a :: rest => s ← filesReducer state a; dispatchAll s rest
  end.

(** ** The data-model invariants *)

Definition ids (s : FilesState) : list FileId := id <$> index s.

Definition is_settings (file : FileRecord) : Prop := name file = SETTINGS_FILE_NAME.

(** [handles[i]] is an engine handle (neither [null] nor missing). *)
Definition has_handle (s : FilesState) (i : FileId) : Prop :=
  is_Some (mjoin (handles s !! i)).

(** 1: contents and handles are defined for exactly the ids of the index. *)
Definition inv_maps (s : FilesState) : Prop :=
  dom (contents s) = list_to_set (C := gset Z) (ids s) ∧
  dom (handles s) = list_to_set (C := gset Z) (ids s).

(** 2: no id occurs twice in the index. *)
Definition inv_unique (s : FilesState) : Prop := NoDup (ids s).

(** 3: the selection is none or an id of the index. *)
Definition inv_selected (s : FilesState) : Prop :=
  ∀ i, selected s = Some i → i ∈ ids s.

(** 4a: at most one record carries the reserved name. *)
Definition inv_one_settings (s : FilesState) : Prop :=
  (length (filter is_settings (index s)) ≤ 1)%nat.

(** 4b: a record with the reserved name has no engine handle. *)
Definition inv_settings_no_handle (s : FilesState) : Prop :=
  Forall (λ file, is_settings file → ¬ has_handle s (id file)) (index s).

Definition inv_settings (s : FilesState) : Prop :=
  inv_one_settings s ∧ inv_settings_no_handle s.

Definition well_formed (s : FilesState) : Prop :=
  inv_maps s ∧ inv_unique s ∧ inv_selected s ∧ inv_settings s.

(** Ids are handed out from the counter: every id in use is below it. *)
Definition ids_below_next (s : FilesState) : Prop :=
  Forall (λ i, i < nextId s) (ids s).

(** The stated precondition of an action: the id it names is in the index. *)
Definition precondition (s : FilesState) (a : FileAction) : Prop :=
  match a with
  | change i _ | rename i _ _ | remove i | selectFile i => i ∈ ids s
  | add _ _ _ | selectFileByName _ => True
  end.

Global Instance precondition_dec s a : Decision (precondition s a).
Proof. destruct a; simpl; apply _. Defined.

(** ** The collaborators: the engine and the JavaScript runtime

    The analysis engine ([Workspace] of [red_knot_wasm]), [JSON.parse],
    the enumeration order of [Object.entries] and [isPythonFile] are
    consumed, not implemented, by the session controller. The engine is a
    deterministic state machine over its own state; every call that
    changes it may throw, and returns the engine's state after the call
    either way. *)

Class Environment : Type := {
  Workspace : Type;
  Settings : Type;
  Diagnostic : Type;
  JSON_parse : string → completion Settings;
  (** [Object.entries(o)] lists every own property of [o] exactly once. *)
  Object_entries : gmap string string → list (string * string);
  Object_entries_all : ∀ o, Object_entries o ≡ₚ map_to_list o;
  (** The second argument of [openFile] is what the caller read from
      [contents], [undefined] ([None]) when the id has no content. *)
  Workspace_openFile :
    Workspace → string → option string → completion FileHandle * Workspace;
  Workspace_closeFile : Workspace → FileHandle → completion unit * Workspace;
  Workspace_updateFile : Workspace → FileHandle → string → completion unit * Workspace;
  Workspace_updateOptions : Workspace → Settings → completion unit * Workspace;
  Workspace_checkFile : Workspace → FileHandle → completion (list Diagnostic);
  Workspace_parsed : Workspace → FileHandle → completion string;
  Workspace_tokens : Workspace → FileHandle → completion string;
  isPythonFile : FileHandle → bool;
}.

(** ** Error formatting ([Editor/Chrome.tsx]) *)

(** [error instanceof Error ? error.message : `${error}`] *)
Definition errorMessage (e : thrown) : string :=
  match e with
  | ErrorObject message => message
  | OtherValue text => text
  end.

Definition formatError (e : thrown) : string :=
  let message := errorMessage e in
  if String.prefix "Error: " message
  then String.substring 7 (String.length message - 7) message
  else message.

(** ** WorkspaceBridge: engine calls sequenced around dispatches *)

Definition dquote : string := String "034"%char EmptyString.

(** [JSON.stringify] of the default settings object with indent 4. *)
Definition DEFAULT_SETTINGS : string :=
  String.concat (String "010"%char EmptyString)
    [ "{";
      "    " +:+ dquote +:+ "environment" +:+ dquote +:+ ": {";
      "        " +:+ dquote +:+ "python-version" +:+ dquote +:+ ": "
                 +:+ dquote +:+ "3.13" +:+ dquote;
      "    },";
      "    " +:+ dquote +:+ "rules" +:+ dquote +:+ ": {";
      "        " +:+ dquote +:+ "division-by-zero" +:+ dquote +:+ ": "
                 +:+ dquote +:+ "error" +:+ dquote;
      "    }";
      "}" ].

(** The one engine instance; a handler may be handed [null] instead. *)
Inductive WorkspaceRef : Type := the_workspace.

Section bridge.
Context `{Env : Environment}.

(** What a handler does that is visible outside it, in order. *)
Inductive Event : Type :=
| CallOpenFile (name : string) (content : option string)
| CallCloseFile (handle : FileHandle)
| CallUpdateFile (handle : FileHandle) (content : string)
| CallUpdateOptions (settings : Settings)
| Dispatch (action : FileAction).

(** The engine's state, the [error] React state, and the calls so far. *)
Record World : Type := {
  engine : Workspace;
  error : option string;
  log : list Event;
}.

Definition Bridge (A : Type) : Type := World → A * World.

Definition emit (ev : Event) (eng : Workspace) (w : World) : World :=
  {| engine := eng; error := error w; log := log w ++ [ev] |}.

Definition setError (e : option string) : Bridge unit :=
  λ w, ((), {| engine := engine w; error := e; log := log w |}).

Definition dispatchFiles (a : FileAction) : Bridge unit :=
  λ w, ((), emit (Dispatch a) (engine w) w).

(** [workspace.openFile] and [workspace.closeFile] are called outside any
    [try]: the result says whether the call returned or threw. *)
Definition openFile (nm : string) (content : option string)
  : Bridge (completion FileHandle) :=
  λ w, let '(r, eng) := Workspace_openFile (engine w) nm content in
       (r, emit (CallOpenFile nm content) eng w).

Definition closeFile (h : FileHandle) : Bridge (completion unit) :=
  λ w, let '(r, eng) := Workspace_closeFile (engine w) h in
       (r, emit (CallCloseFile h) eng w).

Definition callUpdateFile (h : FileHandle) (content : string)
  : Bridge (completion unit) :=
  λ w, let '(r, eng) := Workspace_updateFile (engine w) h content in
       (r, emit (CallUpdateFile h content) eng w).

Definition callUpdateOptions (settings : Settings) : Bridge (completion unit) :=
  λ w, let '(r, eng) := Workspace_updateOptions (engine w) settings in
       (r, emit (CallUpdateOptions settings) eng w).

Definition skip : Bridge unit := λ w, ((), w).

Definition seq {A B} (c : Bridge A) (k : A → Bridge B) : Bridge B :=
  λ w, let '(a, w') := c w in k a w'.

(** Sequencing after a step that may throw: an uncaught throw ends the
    handler there, and nothing after it runs. *)
Definition seqThrow {A B} (c : Bridge (completion A))
    (k : A → Bridge (completion B)) : Bridge (completion B) :=
  λ w, let '(r, w') := c w in
       match r with
       | Normal a => k a w'
       | Throw e => (Throw e, w')
       end.

(** A step that cannot throw, inside a handler that may. *)
Definition returning {A} (c : Bridge A) : Bridge (completion A) :=
  λ w, let '(a, w') := c w in (Normal a, w').

Definition updateOptions (workspace : option WorkspaceRef)
    (content : option string) : Bridge unit :=
  let content := default DEFAULT_SETTINGS content in
  match JSON_parse content with
  | Throw e =>
      setError (Some ("Failed to update 'knot.json' options: " +:+ formatError e))
  | Normal settings =>
      seq (match workspace with
           | Some _ => callUpdateOptions settings
           | None => λ w, (Normal (), w)
           end)
          (λ r, match r with
                | Normal _ => setError None
                | Throw e =>
                    setError (Some ("Failed to update 'knot.json' options: "
                                    +:+ formatError e))
                end)
  end.

Definition updateFile (workspace : WorkspaceRef) (h : FileHandle)
    (content : string) : Bridge unit :=
  seq (callUpdateFile h content)
      (λ r, match r with
            | Normal _ => setError None
            | Throw e => setError (Some ("Failed to update file: " +:+ formatError e))
            end).

(** The name shown for the selection ([fileName] of [Playground]). *)
Definition fileName (files : FilesState) : string :=
  default "lib.py"
    (name <$> find (λ file, bool_decide (Some (id file) = selected files))
                   (index files)).

Definition handleFileAdded (files : FilesState) (workspace : WorkspaceRef)
    (nm : string) : Bridge (completion unit) :=
  seqThrow (if decide (nm = SETTINGS_FILE_NAME)
            then seq (updateOptions (Some workspace) (Some "{}"))
                     (λ _ w, (Normal None, w))
            else seqThrow (openFile nm (Some EmptyString))
                          (λ h w, (Normal (Some h), w)))
           (λ handle, returning (dispatchFiles (add handle nm EmptyString))).

Definition handleFileChanged (files : FilesState) (workspace : WorkspaceRef)
    (content : string) : Bridge unit :=
  match selected files with
  | None => skip
  | Some sel =>
      seq (dispatchFiles (change sel content))
          (λ _, match mjoin (handles files !! sel) with
                | Some h => updateFile workspace h content
                | None =>
                    if decide (fileName files = SETTINGS_FILE_NAME)
                    then updateOptions (Some workspace) (Some content)
                    else skip
                end)
  end.

Definition handleFileRenamed (files : FilesState) (workspace : WorkspaceRef)
    (file : FileId) (newName : string) : Bridge (completion unit) :=
  seqThrow
    (match mjoin (handles files !! file) with
     | None => returning (updateOptions (Some workspace) None)
     | Some h => closeFile h
     end)
    (λ _, seqThrow
            (if decide (newName = SETTINGS_FILE_NAME)
             then seq (updateOptions (Some workspace) (contents files !! file))
                      (λ _ w, (Normal None, w))
             else seqThrow (openFile newName (contents files !! file))
                           (λ h w, (Normal (Some h), w)))
            (λ newHandle,
               returning (dispatchFiles (rename file newName newHandle)))).

Definition handleFileRemoved (files : FilesState) (workspace : WorkspaceRef)
    (file : FileId) : Bridge (completion unit) :=
  seqThrow
    (match mjoin (handles files !! file) with
     | None => returning (updateOptions (Some workspace) None)
     | Some h => closeFile h
     end)
    (λ _, returning (dispatchFiles (remove file))).

Definition handleFileSelected (file : FileId) : Bridge unit :=
  dispatchFiles (selectFile file).

(** The loop of the start-up callback over the restored entries; the
    result is [hasSettings], unless an [openFile] throws. *)
Fixpoint openEntries (workspace : WorkspaceRef) (entries : list (string * string))
    (hasSettings : bool) : Bridge (completion bool) :=
  match entries with
  | [] => λ w, (Normal hasSettings, w)
  | (nm, content) :: rest =>
      seqThrow
        (if decide (nm = SETTINGS_FILE_NAME)
         then seq (updateOptions (Some workspace) (Some content))
                  (λ _ w, (Normal (None, true), w))
         else seqThrow (openFile nm (Some content))
                       (λ h w, (Normal (Some h, hasSettings), w)))
        (λ '(handle, hasSettings'),
           seq (dispatchFiles (add handle nm content))
               (λ _, openEntries workspace rest hasSettings'))
  end.

(** The start-up callback of [Playground], from the entries of
    [fetched.workspace.files] and [fetched.workspace.current]. *)
Definition startWorkspace (workspace : WorkspaceRef)
    (entries : list (string * string)) (current : string)
  : Bridge (completion unit) :=
  seqThrow (openEntries workspace entries false)
    (λ hasSettings,
       seq (if hasSettings then skip else updateOptions (Some workspace) None)
           (λ _, returning (dispatchFiles (selectFileByName current)))).

(** The actions a handler dispatched, in order. *)
Definition dispatched (l : list Event) : list FileAction :=
  omap (λ ev, match ev with Dispatch a => Some a | _ => None end) l.

(** The engine calls a handler made, in order. *)
Definition isEngineCall (ev : Event) : bool :=
  match ev with Dispatch _ => false | _ => true end.

Definition engineCalls (l : list Event) : list Event :=
  filter (λ ev, isEngineCall ev = true) l.

Definition freshWorld (eng : Workspace) : World :=
  {| engine := eng; error := None; log := [] |}.

End bridge.

(** ** PersistenceGateway: snapshots *)

(** [{ files: { [name]: content }, current }]. [serializeFiles] stores what
    it reads from [contents], which is [undefined] ([None]) for an id
    without content; a restored snapshot holds strings. *)
Record Snapshot (V : Type) : Type := { files : gmap string V; current : string }.
Global Arguments files {V} _.
Global Arguments current {V} _.

(** One iteration of the loop of [serializeFiles]. *)
Definition serializeStep (fs : FilesState)
    (acc : gmap string (option string) * option string) (file : FileRecord)
  : gmap string (option string) * option string :=
  (<[name file := contents fs !! id file]> acc.1,
   if decide (selected fs = Some (id file)) then Some (name file) else acc.2).

Definition serializeFiles (fs : FilesState) : option (Snapshot (option string)) :=
  let '(serializedFiles, sel) := foldl (serializeStep fs) (∅, None) (index fs) in
  match sel with
  | None => None
  | Some cur => Some {| files := serializedFiles; current := cur |}
  end.


(** The session after start-up from [snap]: the start-up callback runs
    against the engine [eng], to its end or to the throw of an [openFile],
    and the store applies what it dispatched to the initial state. *)
Definition restoreSession `{Env : Environment} (eng : Workspace) (snap : Snapshot string)
  : completion FilesState :=
  let w := (startWorkspace the_workspace (Object_entries (files snap))
              (current snap) (freshWorld eng)).2 in
  dispatchAll initialFiles (dispatched (log w)).

(** ** AnalysisPipeline ([useCheckResult] of [Editor/Chrome.tsx]) *)

Inductive SecondaryTool : Type := AST | Tokens | Run.

Inductive SecondaryPanelResult : Type :=
| SecondaryOk (content : string)
| SecondaryError (error : string).

Record CheckResult `{Env : Environment} : Type := {
  diagnostics : list Diagnostic;
  checkError : option string;
  secondary : option SecondaryPanelResult;
}.

Section analysis.
Context `{Env : Environment}.

Definition noResult : CheckResult :=
  {| diagnostics := []; checkError := None; secondary := None |}.

(** The [switch] over the secondary tool, inside the inner [try]. *)
Definition runSecondaryTool (workspace : Workspace)
    (secondaryTool : option SecondaryTool) (currentHandle : FileHandle)
  : completion (option SecondaryPanelResult) :=
  match secondaryTool with
  | Some AST =>
      content ← Workspace_parsed workspace currentHandle;
      Normal (Some (SecondaryOk content))
  | Some Tokens =>
      content ← Workspace_tokens workspace currentHandle;
      Normal (Some (SecondaryOk content))
  | Some Run => Normal (Some (SecondaryOk EmptyString))
  | None => Normal None
  end.

(** [deferredContent] is the lagging copy of the selected file's content
    that [useDeferredValue] hands to the memoised computation. *)
Definition useCheckResult (files : FilesState) (workspace : Workspace)
    (secondaryTool : option SecondaryTool) (deferredContent : option string)
  : CheckResult :=
  match selected files, deferredContent with
  | Some sel, Some _ =>
      match mjoin (handles files !! sel) with
      | Some currentHandle =>
          if isPythonFile currentHandle then
            match Workspace_checkFile workspace currentHandle with
            | Normal ds =>
                let sec :=
                  match runSecondaryTool workspace secondaryTool currentHandle with
                  | Normal r => r
                  | Throw e => Some (SecondaryError (errorMessage e))
                  end in
                {| diagnostics := ds; checkError := None; secondary := sec |}
            | Throw e =>
                {| diagnostics := []; checkError := Some (formatError e);
                   secondary := None |}
            end
          else noResult
      | None => noResult
      end
  | _, _ => noResult
  end.
End analysis.

(** ** An engine stub

    A small concrete environment to run the definitions on: handles are
    numbered in the order files are opened, a text parses as settings when
    it starts with a brace, the check reports one diagnostic and the AST
    dump fails. *)

Definition stub_parse (text : string) : completion string :=
  if String.prefix "{" text then Normal text
  else Throw (ErrorObject "Error: expected value at line 1 column 1").

Definition stub : Environment := {|
  Workspace := N;
  Settings := string;
  Diagnostic := string;
  JSON_parse := stub_parse;
  Object_entries := map_to_list;
  Object_entries_all := λ o, reflexivity (map_to_list o);
  Workspace_openFile := λ eng _ _, (Normal (file_handle eng), N.succ eng);
  Workspace_closeFile := λ eng _, (Normal (), eng);
  Workspace_updateFile := λ eng _ _, (Normal (), eng);
  Workspace_updateOptions := λ eng _, (Normal (), eng);
  Workspace_checkFile := λ _ _, Normal ["division-by-zero"];
  Workspace_parsed := λ _ _, Throw (ErrorObject "parse failed");
  Workspace_tokens := λ _ _, Normal "Name";
  isPythonFile := λ _, true;
|}.

(** ** Auxiliary notions used by the statements *)

(** The state the [remove] case returns once the new selection is known. *)
Definition afterRemove (s : FilesState) (i : FileId) (sel : option FileId)
  : FilesState :=
  {| selected := sel;
     index := filter (λ file, id file ≠ i) (index s);
     handles := delete i (handles s);
     contents := delete i (contents s);
     revision := revision s + 1;
     nextId := nextId s |}.

(** Invariants 1 to 3 together with the freshness of the id counter. *)
Definition store_inv (s : FilesState) : Prop :=
  inv_maps s ∧ inv_unique s ∧ inv_selected s ∧ ids_below_next s.

(** What an [add] or [rename] must satisfy for invariant 4 to survive it:
    a record gets the reserved name only without a handle and only when no
    other record bears that name. *)
Definition respects_settings (s : FilesState) (a : FileAction) : Prop :=
  match a with
  | add h nm _ =>
      nm = SETTINGS_FILE_NAME →
      h = None ∧ Forall (λ file, ¬ is_settings file) (index s)
  | rename i to h =>
      to = SETTINGS_FILE_NAME →
      h = None ∧ Forall (λ file, is_settings file → id file = i) (index s)
  | _ => True
  end.

(** [P] holds of every action of the run, in the state it is applied to. *)
Fixpoint admissible (P : FilesState → FileAction → Prop) (s : FilesState)
    (actions : list FileAction) : Prop :=
  match actions with
  | [] => True
  | a :: rest =>
      P s a ∧
      match filesReducer s a with
      | Normal s' => admissible P s' rest
      | Throw _ => True
      end
  end.

Global Instance respects_settings_dec s a : Decision (respects_settings s a).
Proof. destruct a; simpl; apply _. Defined.

Global Instance admissible_dec (P : FilesState → FileAction → Prop)
    `{!∀ s a, Decision (P s a)} s actions : Decision (admissible P s actions).
Proof.
  revert s. induction actions as [|a rest IH]; intros s; simpl; [apply _|].
  destruct (filesReducer s a); apply _.
Defined.

(** What the [add] transition is expected to do to a state. *)
Definition add_effect (s : FilesState) (h : option FileHandle)
    (nm content : string) (s' : FilesState) : Prop :=
  nextId s' = nextId s + 1 ∧
  index s' = index s ++ [{| id := nextId s; name := nm |}] ∧
  contents s' !! nextId s = Some content ∧
  handles s' !! nextId s = Some h ∧
  selected s' = Some (nextId s) ∧
  revision s' = revision s + 1 ∧
  (∀ i, i ∈ dom (contents s) → contents s' !! i = contents s !! i) ∧
  (∀ i, i ∈ dom (handles s) → handles s' !! i = handles s !! i).

(** A session with the single file [main.py], as the reducer builds it. *)
Definition one_file : FilesState :=
  {| selected := Some 0;
     index := [{| id := 0; name := "main.py" |}];
     handles := {[ 0 := Some (file_handle 0) ]};
     contents := {[ 0 := "import os" ]};
     revision := 1;
     nextId := 1 |}.

(** A run over three files that renames, removes and reselects. *)
Definition sample_run : list FileAction :=
  [ add (Some (file_handle 0)) "main.py" "import os";
    add None "knot.json" "{}";
    add (Some (file_handle 1)) "util.py" EmptyString;
    selectFileByName "main.py";
    rename 0 "lib.py" (Some (file_handle 2));
    change 0 "import sys";
    remove 0;
    selectFile 2;
    remove 2 ].

(** [s] with only its revision bumped. *)
Definition bumpRevision (s : FilesState) : FilesState :=
  {| selected := selected s; index := index s; handles := handles s;
     contents := contents s; revision := revision s + 1; nextId := nextId s |}.

(** [s] with only its selection replaced. *)
Definition withSelected (s : FilesState) (sel : option FileId) : FilesState :=
  {| selected := sel; index := index s; handles := handles s;
     contents := contents s; revision := revision s; nextId := nextId s |}.

(** The engine query behind the secondary tool throws [e]. The [Run] tool
    makes no call and cannot throw. *)
Definition secondaryToolThrows `{Env : Environment} (workspace : Workspace)
    (tool : SecondaryTool) (h : FileHandle) (e : thrown) : Prop :=
  match tool with
  | AST => Workspace_parsed workspace h = Throw e
  | Tokens => Workspace_tokens workspace h = Throw e
  | Run => False
  end.

(** The label that prefixes every configuration error. *)
Definition settingsErrorLabel : string := "Failed to update 'knot.json' options: ".

(** The session after start-up from [main.py] and [knot.json], where [h]
    is the handle the engine gave for [main.py]. *)
Definition scenarioFiles (h : FileHandle) : FilesState :=
  {| selected := Some 0;
     index := [{| id := 0; name := "main.py" |};
               {| id := 1; name := "knot.json" |}];
     handles := {[ 0 := Some h; 1 := None ]};
     contents := {[ 0 := "import os"; 1 := "{}" ]};
     revision := 2;
     nextId := 2 |}.

(** The name and the stored content of every record, in display order. *)
Definition listing (s : FilesState) : list (string * option string) :=
  (λ file, (name file, contents s !! id file)) <$> index s.

(** [o[e.1] = e.2] on a dictionary. *)
Definition insertEntry {V} (m : gmap string V) (e : string * V) : gmap string V :=
  <[e.1 := e.2]> m.

(** [acts] adds the files of [entries], in order, each with some handle. *)
Definition addsFor (entries : list (string * string)) (acts : list FileAction)
  : Prop :=
  Forall2 (λ e a, ∃ h, a = add h e.1 e.2) entries acts.

(** ** Further notions: counters, handle discipline, engine calls *)

(** The actions whose case sets [nextId: state.nextId + 1]. *)
Definition allocatesId (a : FileAction) : bool :=
  match a with add _ _ _ => true | _ => false end.

(** The actions whose case sets [revision: state.revision + 1]. *)
Definition setsRevision (a : FileAction) : bool :=
  match a with
  | add _ _ _ | change _ _ | remove _ => true
  | rename _ _ _ | selectFile _ | selectFileByName _ => false
  end.

Definition countWhere {A} (p : A → bool) (l : list A) : Z :=
  Z.of_nat (length (filter (λ a, p a = true) l)).

(** The handlers give a record a handle exactly when its name is not the
    reserved one. *)
Definition handleMatchesName (nm : string) (h : option FileHandle) : Prop :=
  h = None ↔ nm = SETTINGS_FILE_NAME.

Definition bridgeShaped (a : FileAction) : Prop :=
  match a with
  | add h nm _ => handleMatchesName nm h
  | rename _ to h => handleMatchesName to h
  | _ => True
  end.

Global Instance bridgeShaped_dec a : Decision (bridgeShaped a).
Proof. destruct a; simpl; unfold handleMatchesName; apply _. Defined.

(** Every record has an engine handle exactly when it is not the
    reserved configuration file. *)
Definition inv_handle_by_name (s : FilesState) : Prop :=
  Forall (λ file, has_handle s (id file) ↔ ¬ is_settings file) (index s).

(** The [openFile] calls of a log, in order. *)
Definition openCalls `{Env : Environment} (l : list Event)
  : list (string * option string) :=
  omap (λ ev, match ev with CallOpenFile nm c => Some (nm, c) | _ => None end) l.

(** The [closeFile] calls of a log, in order. *)
Definition closeCalls `{Env : Environment} (l : list Event) : list FileHandle :=
  omap (λ ev, match ev with CallCloseFile h => Some h | _ => None end) l.

(** An engine stub whose check fails. *)
Definition failing_stub : Environment := {|
  Workspace := N;
  Settings := string;
  Diagnostic := string;
  JSON_parse := stub_parse;
  Object_entries := map_to_list;
  Object_entries_all := λ o, reflexivity (map_to_list o);
  Workspace_openFile := λ eng _ _, (Normal (file_handle eng), N.succ eng);
  Workspace_closeFile := λ eng _, (Normal (), eng);
  Workspace_updateFile := λ eng _ _, (Throw (ErrorObject "Error: file not open"), eng);
  Workspace_updateOptions := λ eng _, (Normal (), eng);
  Workspace_checkFile := λ _ _, Throw (ErrorObject "Error: salsa panicked");
  Workspace_parsed := λ _ _, Normal "Module";
  Workspace_tokens := λ _ _, Normal "Name";
  isPythonFile := λ _, true;
|}.

(** Three files, the middle one selected. *)
Definition three_files : FilesState :=
  {| selected := Some 1;
     index := [{| id := 0; name := "a.py" |}; {| id := 1; name := "b.py" |};
               {| id := 2; name := "a.py" |}];
     handles := {[ 0 := Some (file_handle 0); 1 := Some (file_handle 1);
                   2 := Some (file_handle 2) ]};
     contents := {[ 0 := "first"; 1 := "second"; 2 := "third" ]};
     revision := 3;
     nextId := 3 |}.

(** An [updateOptions] call on the engine. *)
Definition isUpdateOptions `{Env : Environment} (ev : Event) : Prop :=
  ∃ settings, ev = CallUpdateOptions settings.

(** Two files are added and the first is removed. *)
Definition removal_run : list FileAction :=
  [ add (Some (file_handle 0)) "main.py" "import os";
    add None "knot.json" "{}";
    remove 0 ].

(** What follows [removal_run] in the sample session. *)
Definition later_run : list FileAction :=
  [ add (Some (file_handle 1)) "util.py" EmptyString;
    rename 2 "lib.py" (Some (file_handle 2));
    change 2 "import sys" ].

(** A snapshot whose current name is not one of its files. *)
Definition stale_snapshot : Snapshot string :=
  {| files := {[ "main.py" := "import os" ]}; current := "gone.py" |}.



(** The [openFile] calls that start-up makes for [entries]: one per entry
    whose name is not the reserved one. *)
Definition opensFor (entries : list (string * string))
  : list (string * option string) :=
  (λ e, (e.1, Some e.2)) <$> filter (λ e, e.1 ≠ SETTINGS_FILE_NAME) entries.

(** What is left of [handleFileRenamed] once the old file is released, from
    the world [w1] reached by then: for the reserved name only options are
    updated and [rename] is dispatched without handle; otherwise the new
    name is opened with the stored content and [rename] is dispatched with
    the handle the engine returned, unless [openFile] throws, which ends
    the handler before the dispatch. *)
Definition renamedFrom `{Env : Environment} (files : FilesState)
    (file : FileId) (newName : string) (w1 : World)
    (r : completion unit * World) : Prop :=
  if decide (newName = SETTINGS_FILE_NAME)
  then ∃ mid, Forall isUpdateOptions mid ∧ r.1 = Normal () ∧
              log r.2 = log w1 ++ mid ++ [Dispatch (rename file newName None)]
  else match Workspace_openFile (engine w1) newName (contents files !! file) with
       | (Normal new, eng') =>
           r.1 = Normal () ∧ engine r.2 = eng' ∧
           log r.2 = log w1 ++ [CallOpenFile newName (contents files !! file);
                               Dispatch (rename file newName (Some new))]
       | (Throw e, eng') =>
           r.1 = Throw e ∧ engine r.2 = eng' ∧
           log r.2 = log w1 ++ [CallOpenFile newName (contents files !! file)]
       end.

(** * Properties *)

(** ** Array helpers *)

Section array_facts.
Context {A : Type}.
Implicit Types (p : A → bool) (l : list A).

Lemma findIndex_from_list_find p l n :
  findIndex_from p l n =
    match list_find (λ x, p x = true) l with
    | Some (k, _) => n + Z.of_nat k
    | None => -1
    end.
Proof.
  revert n. induction l as [|x l IH]; intros n; simpl; [done|].
  destruct (p x) eqn:Hp.
  - rewrite decide_True by done. simpl. lia.
  - rewrite decide_False by done. rewrite IH.
    destruct (list_find _ l) as [[k y]|]; simpl; lia.
Qed.

Lemma findIndex_found p l k x :
  l !! k = Some x → p x = true →
  (∀ j y, l !! j = Some y → (j < k)%nat → p y = false) →
  findIndex p l = Z.of_nat k.
Proof.
  intros Hk Hp Hbefore. unfold findIndex.
  rewrite findIndex_from_list_find.
  assert (list_find (λ x, p x = true) l = Some (k, x)) as ->; [|lia].
  apply list_find_Some. split_and!; [done..|].
  intros j y Hj Hlt. rewrite (Hbefore j y Hj Hlt). done.
Qed.

Lemma findIndex_absent p l :
  Forall (λ x, p x = false) l → findIndex p l = -1.
Proof.
  intros Hall. unfold findIndex. rewrite findIndex_from_list_find.
  assert (list_find (λ x, p x = true) l = None) as ->; [|done].
  apply list_find_None. eapply Forall_impl; [exact Hall|].
  simpl. intros x ->. done.
Qed.

Lemma find_list_find p l :
  find p l = snd <$> list_find (λ x, p x = true) l.
Proof.
  induction l as [|x l IH]; simpl; [done|].
  destruct (p x) eqn:Hp.
  - rewrite decide_True by done. done.
  - rewrite decide_False by done. rewrite IH.
    destruct (list_find _ l) as [[k y]|]; done.
Qed.

Lemma at_index_nat l (k : nat) : at_index l (Z.of_nat k) = l !! k.
Proof.
  unfold at_index. rewrite decide_True by lia. by rewrite Nat2Z.id.
Qed.

Lemma at_index_negative l i : i < 0 → at_index l i = None.
Proof. intros. unfold at_index. by rewrite decide_False by lia. Qed.

(** Replacing one element at a valid position keeps the positions. *)
Lemma splice_replace l (k : nat) x :
  (k < length l)%nat → splice l (Z.of_nat k) 1 x = <[k := x]> l.
Proof.
  intros Hk. unfold splice.
  rewrite decide_False by lia.
  rewrite Z.min_l by lia.
  replace (Z.min (Z.max 1 0) (Z.of_nat (length l) - Z.of_nat k)) with 1 by lia.
  rewrite Nat2Z.id.
  replace (Z.to_nat (Z.of_nat k + 1)) with (S k) by lia.
  by rewrite insert_take_drop.
Qed.
End array_facts.

(** ** SessionStore: facts about the index *)

Section store_facts.
Implicit Types (s : FilesState) (i j : FileId) (r : FileRecord).

Lemma ids_lookup s k r : index s !! k = Some r → ids s !! k = Some (id r).
Proof. intros H. unfold ids. by rewrite list_lookup_fmap, H. Qed.

Lemma elem_of_ids s i : i ∈ ids s ↔ ∃ k r, index s !! k = Some r ∧ id r = i.
Proof.
  unfold ids. rewrite list_elem_of_fmap. split.
  - intros (r & -> & [k Hk]%list_elem_of_lookup). eauto.
  - intros (k & r & Hk & <-). exists r. split; [done|].
    eapply list_elem_of_lookup_2; eauto.
Qed.

Lemma findIndex_of_id s k r :
  inv_unique s → index s !! k = Some r →
  findIndex (λ file, bool_decide (id file = id r)) (index s) = Z.of_nat k.
Proof.
  intros Hnd Hk. eapply findIndex_found; [done|by apply bool_decide_eq_true_2|].
  intros j y Hj Hlt. apply bool_decide_eq_false_2. intros Heq.
  assert (j = k); [|lia].
  eapply (NoDup_lookup (ids s)); [done| |by apply ids_lookup].
  by rewrite (ids_lookup _ _ _ Hj), Heq.
Qed.

Lemma findIndex_unknown s i :
  i ∉ ids s → findIndex (λ file, bool_decide (id file = i)) (index s) = -1.
Proof.
  intros Hi. apply findIndex_absent, Forall_forall. intros r Hr.
  apply bool_decide_eq_false_2. intros <-. apply Hi.
  unfold ids. apply list_elem_of_fmap. eauto.
Qed.

Lemma find_Some_elem {A} (p : A → bool) (l : list A) x :
  find p l = Some x → x ∈ l ∧ p x = true.
Proof.
  rewrite find_list_find.
  destruct (list_find _ l) as [[k y]|] eqn:Hf; simpl; [|done].
  intros [= ->]. apply list_find_Some in Hf as (Hk & Hp & _).
  split; [|done]. eapply list_elem_of_lookup_2; eauto.
Qed.

Lemma elem_of_ids_filter (l : list FileRecord) i j :
  j ∈ id <$> filter (λ file, id file ≠ i) l ↔ j ∈ id <$> l ∧ j ≠ i.
Proof.
  rewrite !list_elem_of_fmap. split.
  - intros (r & -> & [Hne Hr]%list_elem_of_filter). eauto.
  - intros [(r & -> & Hr) Hne]. exists r. split; [done|].
    by apply list_elem_of_filter.
Qed.

Lemma NoDup_ids_filter (l : list FileRecord) i :
  NoDup (id <$> l) → NoDup (id <$> filter (λ file, id file ≠ i) l).
Proof.
  intros Hnd. assert (id <$> filter (λ file, id file ≠ i) l `sublist_of` id <$> l) as Hsub
    by apply fmap_sublist, sublist_filter.
  by eapply sublist_NoDup.
Qed.

Lemma filter_unknown (l : list FileRecord) i :
  i ∉ id <$> l → filter (λ file, id file ≠ i) l = l.
Proof.
  intros Hi. induction l as [|r l IH]; [done|].
  rewrite fmap_cons, not_elem_of_cons in Hi. destruct Hi as [Hne Hi].
  rewrite filter_cons_True by done. by rewrite IH.
Qed.
End store_facts.

(** ** SessionStore: what each case of the reducer returns *)

Section reducer_facts.
Implicit Types (s : FilesState) (i j : FileId) (r : FileRecord).

Lemma remove_not_selected s i :
  selected s ≠ Some i →
  filesReducer s (remove i) = Normal (afterRemove s i (selected s)).
Proof. intros Hsel. simpl. by rewrite decide_False by done. Qed.

Lemma remove_selected s k r :
  inv_unique s → index s !! k = Some r → selected s = Some (id r) →
  filesReducer s (remove (id r)) =
    match (if decide (0 < k)%nat then index s !! (k - 1)%nat
           else index s !! (k + 1)%nat) with
    | Some r' => Normal (afterRemove s (id r) (Some (id r')))
    | None => Throw (TypeError_property_of_undefined "id")
    end.
Proof.
  intros Hnd Hk Hsel. simpl. rewrite decide_True by done.
  rewrite (findIndex_of_id s k r Hnd Hk).
  destruct (decide (0 < k)%nat) as [Hpos|Hzero].
  - rewrite decide_True by lia.
    replace (Z.of_nat k - 1) with (Z.of_nat (k - 1)) by lia.
    rewrite at_index_nat. by destruct (index s !! (k - 1)%nat).
  - rewrite decide_False by lia.
    replace (Z.of_nat k + 1) with (Z.of_nat (k + 1)) by lia.
    rewrite at_index_nat. by destruct (index s !! (k + 1)%nat).
Qed.

Lemma rename_known s k r to h :
  inv_unique s → index s !! k = Some r →
  filesReducer s (rename (id r) to h) =
    Normal {| selected := selected s;
              index := <[k := {| id := id r; name := to |}]> (index s);
              handles := <[id r := h]> (handles s);
              contents := contents s;
              revision := revision s;
              nextId := nextId s |}.
Proof.
  intros Hnd Hk. simpl. rewrite (findIndex_of_id s k r Hnd Hk).
  rewrite splice_replace; [done|]. by eapply lookup_lt_Some.
Qed.

Lemma ids_rename s k r to :
  index s !! k = Some r →
  id <$> <[k := {| id := id r; name := to |}]> (index s) = ids s.
Proof.
  intros Hk. rewrite list_fmap_insert. simpl.
  apply list_insert_id. by apply ids_lookup.
Qed.

(** Removing: everything but the selection. *)
Lemma afterRemove_store_inv s i sel :
  store_inv s →
  (∀ j, sel = Some j → j ∈ ids s ∧ j ≠ i) →
  store_inv (afterRemove s i sel).
Proof.
  intros ([Hc Hh] & Hnd & Hsel & Hlt) Hnew.
  assert (∀ j, j ∈ ids (afterRemove s i sel) ↔ j ∈ ids s ∧ j ≠ i) as Hids
    by (intros j; apply elem_of_ids_filter).
  unfold store_inv, ids_below_next. split_and!.
  - split; simpl; rewrite dom_delete_L; [rewrite Hc|rewrite Hh];
      apply set_eq; intros j;
      rewrite elem_of_difference, !elem_of_list_to_set, Hids, elem_of_singleton;
      done.
  - by apply NoDup_ids_filter.
  - intros j Hj. apply Hids. by apply Hnew.
  - apply Forall_forall. intros j [Hj _]%Hids.
    by eapply (proj1 (Forall_forall _ _) Hlt).
Qed.

Lemma add_store_inv s h nm c :
  store_inv s →
  store_inv {| selected := Some (nextId s);
               index := index s ++ [{| id := nextId s; name := nm |}];
               handles := <[nextId s := h]> (handles s);
               contents := <[nextId s := c]> (contents s);
               revision := revision s + 1;
               nextId := nextId s + 1 |}.
Proof.
  intros ([Hc Hh] & Hnd & Hsel & Hlt).
  assert (nextId s ∉ ids s) as Hfresh.
  { intros Hin. apply (proj1 (Forall_forall _ _) Hlt) in Hin. lia. }
  unfold store_inv, inv_maps, inv_unique, inv_selected, ids_below_next, ids.
  simpl. rewrite fmap_app, list_to_set_app_L. simpl.
  rewrite !dom_insert_L, Hc, Hh. fold (ids s).
  split_and!.
  - rewrite union_empty_r_L. apply union_comm_L.
  - rewrite union_empty_r_L. apply union_comm_L.
  - apply NoDup_app. split_and!; [done| |apply NoDup_singleton].
    intros j Hj ->%list_elem_of_singleton. done.
  - intros j [= <-]. apply elem_of_app. right. by apply list_elem_of_singleton.
  - apply Forall_app. split.
    + eapply Forall_impl; [exact Hlt|]. simpl. lia.
    + apply Forall_singleton. lia.
Qed.

Lemma insert_known_dom {V} (m : gmap Z V) (l : list Z) i v :
  dom m = list_to_set (C := gset Z) l → i ∈ l →
  dom (<[i := v]> m) = list_to_set (C := gset Z) l.
Proof.
  intros Hdom Hi. rewrite dom_insert_L, Hdom.
  apply subseteq_union_1_L, singleton_subseteq_l.
  by apply elem_of_list_to_set.
Qed.

(** A returning transition whose precondition holds keeps invariants
    1 to 3 and the freshness of the counter. *)
Lemma step_store_inv s a s' :
  store_inv s → precondition s a → filesReducer s a = Normal s' →
  store_inv s'.
Proof.
  intros Hinv Hpre Hstep.
  pose proof Hinv as ([Hc Hh] & Hnd & Hsel & Hlt).
  destruct a as [h nm c|i c|i to h|i|i|nm].
  - (* add *)
    injection Hstep as <-. by apply add_store_inv.
  - (* change *)
    injection Hstep as <-. simpl in Hpre.
    unfold store_inv, inv_maps, inv_unique, inv_selected, ids_below_next, ids.
    simpl. split_and!; try done. by apply insert_known_dom.
  - (* rename *)
    simpl in Hpre. pose proof Hpre as Hin.
    apply elem_of_ids in Hpre as (k & r & Hk & <-).
    rewrite (rename_known s k r to h Hnd Hk) in Hstep. injection Hstep as <-.
    unfold store_inv, inv_maps, inv_unique, inv_selected, ids_below_next, ids.
    simpl. rewrite (ids_rename s k r to Hk).
    split_and!; try done. by apply insert_known_dom.
  - (* remove *)
    simpl in Hpre. apply elem_of_ids in Hpre as (k & r & Hk & <-).
    destruct (decide (selected s = Some (id r))) as [Hs|Hs].
    + rewrite (remove_selected s k r Hnd Hk Hs) in Hstep.
      destruct (decide (0 < k)%nat) as [Hpos|Hzero].
      * destruct (index s !! (k - 1)%nat) as [r'|] eqn:Hk'; [|done].
        injection Hstep as <-. apply afterRemove_store_inv; [done|].
        intros j [= <-]. split; [apply elem_of_ids; eauto|].
        intros Heq. assert ((k - 1)%nat = k); [|lia].
        eapply (NoDup_lookup (ids s)); [done| |by apply ids_lookup].
        by rewrite (ids_lookup _ _ _ Hk'), Heq.
      * destruct (index s !! (k + 1)%nat) as [r'|] eqn:Hk'; [|done].
        injection Hstep as <-. apply afterRemove_store_inv; [done|].
        intros j [= <-]. split; [apply elem_of_ids; eauto|].
        intros Heq. assert ((k + 1)%nat = k); [|lia].
        eapply (NoDup_lookup (ids s)); [done| |by apply ids_lookup].
        by rewrite (ids_lookup _ _ _ Hk'), Heq.
    + rewrite (remove_not_selected s (id r) Hs) in Hstep.
      injection Hstep as <-. apply afterRemove_store_inv; [done|].
      intros j Hj. split; [by apply Hsel|]. intros ->. done.
  - (* selectFile *)
    injection Hstep as <-. simpl in Hpre.
    unfold store_inv, inv_maps, inv_unique, inv_selected, ids_below_next, ids.
    simpl. split_and!; try done. by intros j [= <-].
  - (* selectFileByName *)
    injection Hstep as <-.
    unfold store_inv, inv_maps, inv_unique, inv_selected, ids_below_next, ids.
    simpl. split_and!; try done.
    intros j Hj.
    destruct (find _ (index s)) as [r|] eqn:Hfind; simpl in Hj; [|done].
    injection Hj as <-. apply find_Some_elem in Hfind as [Hr _].
    apply list_elem_of_fmap. eauto.
Qed.

Lemma initialFiles_store_inv : store_inv initialFiles.
Proof.
  unfold store_inv, inv_maps, inv_unique, inv_selected, ids_below_next, ids.
  simpl. split_and!; try done; try apply NoDup_nil_2;
    try apply Forall_nil_2; by rewrite ?dom_empty_L.
Qed.
End reducer_facts.

(** ** SessionStore: the reserved configuration file *)

Section settings_facts.
Implicit Types (s : FilesState) (i j : FileId) (r : FileRecord).

Lemma filter_filter_length {A} (P Q : A → Prop)
    `{!∀ x, Decision (P x)} `{!∀ x, Decision (Q x)} (l : list A) :
  (length (filter Q (filter P l)) ≤ length (filter Q l))%nat.
Proof.
  induction l as [|x l IH]; [done|].
  destruct (decide (P x)); destruct (decide (Q x));
    rewrite ?(filter_cons_True P), ?(filter_cons_False P),
            ?(filter_cons_True Q), ?(filter_cons_False Q) by done;
    simpl; lia.
Qed.

Lemma filter_none {A} (Q : A → Prop) `{!∀ x, Decision (Q x)} (l : list A) :
  Forall (λ x, ¬ Q x) l → filter Q l = [].
Proof.
  induction 1 as [|x l' Hx _ IH]; [done|]. by rewrite filter_cons_False.
Qed.

Lemma filter_insert_length {A} (Q : A → Prop) `{!∀ x, Decision (Q x)}
    (l : list A) k x y :
  l !! k = Some y →
  (length (filter Q (<[k := x]> l)) + (if decide (Q y) then 1 else 0) =
   length (filter Q l) + (if decide (Q x) then 1 else 0))%nat.
Proof.
  revert k. induction l as [|z l IH]; intros [|k] Hk; simplify_eq/=.
  - rewrite !filter_cons. repeat case_decide; simpl; lia.
  - specialize (IH k Hk). rewrite !filter_cons.
    repeat case_decide; simpl; lia.
Qed.

Lemma elem_of_insert_other (l : list FileRecord) k r x f :
  NoDup (id <$> l) → l !! k = Some r → f ∈ <[k := x]> l →
  f = x ∨ (f ∈ l ∧ id f ≠ id r).
Proof.
  intros Hnd Hk [j Hj]%list_elem_of_lookup.
  destruct (decide (j = k)) as [->|Hne].
  - rewrite list_lookup_insert_eq in Hj by by eapply lookup_lt_Some.
    left. congruence.
  - rewrite list_lookup_insert_ne in Hj by done. right.
    split; [by eapply list_elem_of_lookup_2|].
    intros Heq. apply Hne.
    apply (NoDup_lookup (id <$> l) j k (id r)); [done|..];
      rewrite list_lookup_fmap; [rewrite Hj|rewrite Hk]; simpl; congruence.
Qed.

Lemma unique_record (l : list FileRecord) k r f :
  NoDup (id <$> l) → l !! k = Some r → f ∈ l → id f = id r → f = r.
Proof.
  intros Hnd Hk [j Hj]%list_elem_of_lookup Heq.
  assert (j = k) as ->; [|congruence].
  apply (NoDup_lookup (id <$> l) j k (id r)); [done|..];
    rewrite list_lookup_fmap; [rewrite Hj|rewrite Hk]; simpl; congruence.
Qed.

Lemma has_handle_insert_ne s' s i j h :
  handles s' = <[i := h]> (handles s) → j ≠ i →
  has_handle s' j ↔ has_handle s j.
Proof.
  intros Hh Hne. unfold has_handle. by rewrite Hh, lookup_insert_ne.
Qed.

Lemma has_handle_insert_None s' s i :
  handles s' = <[i := None]> (handles s) → ¬ has_handle s' i.
Proof.
  intros Hh. unfold has_handle. rewrite Hh, lookup_insert_eq. simpl.
  by intros [? ?].
Qed.

(** A returning transition that also respects the reserved name keeps
    invariant 4. *)
Lemma step_settings s a s' :
  store_inv s → inv_settings s →
  precondition s a → respects_settings s a →
  filesReducer s a = Normal s' →
  inv_settings s'.
Proof.
  intros Hinv [Hone Hno] Hpre Hres Hstep.
  pose proof Hinv as ([Hc Hh] & Hnd & Hsel & Hlt).
  unfold inv_settings, inv_one_settings, inv_settings_no_handle in *.
  destruct a as [h nm c|i c|i to h|i|i|nm];
    try (injection Hstep as <-; simpl; done).
  - (* add *)
    injection Hstep as <-. simpl in *.
    assert (∀ file, file ∈ index s → id file ≠ nextId s) as Hfresh.
    { intros file Hin Heq.
      assert (nextId s ∈ ids s) as Hin'
        by (unfold ids; apply list_elem_of_fmap; eauto).
      apply (proj1 (Forall_forall _ _) Hlt) in Hin'. lia. }
    rewrite filter_app, length_app, filter_cons, filter_nil.
    destruct (decide (nm = SETTINGS_FILE_NAME)) as [->|Hnm].
    + destruct (Hres eq_refl) as [-> Hnone].
      rewrite decide_True by done. split.
      * rewrite (filter_none _ _ Hnone). simpl. lia.
      * apply Forall_app. split.
        -- eapply Forall_impl; [exact Hnone|]. simpl. intros x Hx Hs. done.
        -- apply Forall_singleton. intros _.
           by eapply has_handle_insert_None.
    + rewrite decide_False by done. split; [simpl; lia|].
      apply Forall_app. split.
      * apply Forall_forall. intros file Hin Hs.
        rewrite has_handle_insert_ne; [|done|by apply Hfresh].
        by apply (proj1 (Forall_forall _ _) Hno).
      * apply Forall_singleton. intros Hs. done.
  - (* rename *)
    simpl in Hpre. apply elem_of_ids in Hpre as (k & r & Hk & <-).
    rewrite (rename_known s k r to h Hnd Hk) in Hstep. injection Hstep as <-.
    simpl in *.
    pose proof (filter_insert_length is_settings (index s) k
                  {| id := id r; name := to |} r Hk) as Hlen.
    split.
    + destruct (decide (to = SETTINGS_FILE_NAME)) as [->|Hto].
      * destruct (Hres eq_refl) as [-> Hsame].
        rewrite (decide_True (P := is_settings {| id := id r; name := _ |}))
          in Hlen by done.
        destruct (decide (is_settings r)) as [Hr|Hr]; [lia|].
        assert (filter is_settings (index s) = []) as Hnil; [|rewrite Hnil in Hlen; simpl in Hlen; lia].
        assert (Forall (λ file, ¬ is_settings file) (index s)) as Hnone.
        { apply Forall_forall. intros file Hin Hs.
          assert (file = r) as ->; [|done].
          eapply unique_record; [exact Hnd|exact Hk|done|].
          by apply (proj1 (Forall_forall _ _) Hsame). }
        by apply filter_none.
      * rewrite (decide_False (P := is_settings {| id := id r; name := _ |}))
          in Hlen by done.
        lia.
    + apply Forall_forall. intros file Hin Hs.
      apply (elem_of_insert_other _ _ r _ _ Hnd Hk) in Hin as [->|[Hin Hne]].
      * simpl. unfold is_settings in Hs. simpl in Hs.
        destruct (Hres Hs) as [-> _]. by eapply has_handle_insert_None.
      * rewrite has_handle_insert_ne; [|done|done].
        by apply (proj1 (Forall_forall _ _) Hno).
  - (* remove *)
    assert (s' = afterRemove s i (selected s')) as ->.
    { simpl in Hstep.
      destruct (decide (selected s = Some i)); simpl in Hstep.
      - destruct (property _ _ _); simpl in Hstep; [|done].
        by injection Hstep as <-.
      - by injection Hstep as <-. }
    simpl. split.
    + etrans; [apply filter_filter_length|done].
    + apply Forall_forall. intros file [Hne Hin]%list_elem_of_filter Hs.
      unfold has_handle. simpl. rewrite lookup_delete_ne by done.
      by apply (proj1 (Forall_forall _ _) Hno).
Qed.

Lemma initialFiles_settings : inv_settings initialFiles.
Proof.
  split; [unfold inv_one_settings; simpl; lia|apply Forall_nil_2].
Qed.

(** Invariants along a run. *)
Lemma run_store_inv actions s s' :
  store_inv s → admissible precondition s actions →
  dispatchAll s actions = Normal s' → store_inv s'.
Proof.
  revert s. induction actions as [|a rest IH]; intros s Hinv Hadm Hrun.
  - by injection Hrun as <-.
  - simpl in Hadm, Hrun. destruct Hadm as [Hpre Hrest].
    destruct (filesReducer s a) as [s1|e] eqn:Hstep; [|done].
    eapply IH; [|exact Hrest|exact Hrun].
    by eapply step_store_inv.
Qed.

Lemma run_settings actions s s' :
  store_inv s → inv_settings s →
  admissible precondition s actions →
  admissible respects_settings s actions →
  dispatchAll s actions = Normal s' → inv_settings s'.
Proof.
  revert s. induction actions as [|a rest IH]; intros s Hinv Hset Hadm Hres Hrun.
  - by injection Hrun as <-.
  - simpl in Hadm, Hres, Hrun.
    destruct Hadm as [Hpre Hrest]. destruct Hres as [Hr Hrrest].
    destruct (filesReducer s a) as [s1|e] eqn:Hstep; [|done].
    eapply IH; [| |exact Hrest|exact Hrrest|exact Hrun].
    + by eapply step_store_inv.
    + by eapply step_settings.
Qed.
End settings_facts.

(** ** SessionStore: the claims *)

Section store_claims.
Implicit Types (s : FilesState) (i j : FileId) (r : FileRecord).

(** Every state reached from the initial one has a fresh id counter. *)
Lemma store_inv_fresh s :
  store_inv s →
  (nextId s ∉ dom (contents s)) ∧ (nextId s ∉ dom (handles s)).
Proof.
  intros ([Hc Hh] & _ & _ & Hlt). rewrite Hc, Hh.
  assert (nextId s ∉ ids s) as Hfresh.
  { intros Hin. apply (proj1 (Forall_forall _ _) Hlt) in Hin. lia. }
  by rewrite elem_of_list_to_set.
Qed.

Lemma add_bumps_revision s h nm c :
  ∃ s', filesReducer s (add h nm c) = Normal s' ∧ revision s' = revision s + 1.
Proof. by eexists. Qed.

Lemma change_bumps_revision s i c :
  ∃ s', filesReducer s (change i c) = Normal s' ∧ revision s' = revision s + 1.
Proof. by eexists. Qed.

Lemma remove_bumps_revision s i s' :
  filesReducer s (remove i) = Normal s' → revision s' = revision s + 1.
Proof.
  simpl. destruct (decide (selected s = Some i)); simpl.
  - destruct (property _ _ _); simpl; [|done]. by intros [= <-].
  - by intros [= <-].
Qed.

(** Removing the selected file selects its predecessor. *)
Lemma remove_selects_predecessor s k r r' :
  inv_unique s → index s !! S k = Some r → index s !! k = Some r' →
  selected s = Some (id r) →
  filesReducer s (remove (id r)) = Normal (afterRemove s (id r) (Some (id r'))).
Proof.
  intros Hnd Hk Hk' Hsel. rewrite (remove_selected s (S k) r Hnd Hk Hsel).
  rewrite decide_True by lia.
  replace (S k - 1)%nat with k by lia. by rewrite Hk'.
Qed.

(** Removing the selected first file selects its successor. *)
Lemma remove_selects_successor s r r' :
  inv_unique s → index s !! 0%nat = Some r → index s !! 1%nat = Some r' →
  selected s = Some (id r) →
  filesReducer s (remove (id r)) = Normal (afterRemove s (id r) (Some (id r'))).
Proof.
  intros Hnd Hk Hk' Hsel. rewrite (remove_selected s 0 r Hnd Hk Hsel).
  rewrite decide_False by lia. simpl. by rewrite Hk'.
Qed.

(** Removing a file that is not selected keeps the selection. *)
Lemma remove_keeps_other_selection s i :
  selected s ≠ Some i →
  filesReducer s (remove i) = Normal (afterRemove s i (selected s)).
Proof. apply remove_not_selected. Qed.
End store_claims.

(** C1, as stated, fails: two records may carry the reserved name. The
    run adds [knot.json] twice; every precondition holds and the reducer
    returns, yet invariant 4 is broken. *)
Lemma C1_two_settings_files :
  let actions := [add None "knot.json" "{}"; add None "knot.json" "{}"] in
  admissible precondition initialFiles actions ∧
  ∃ s', dispatchAll initialFiles actions = Normal s' ∧ ¬ well_formed s'.
Proof.
  split; [compute_done|].
  eexists. split; [reflexivity|].
  intros (_ & _ & _ & Hone & _). revert Hone.
  unfold inv_one_settings. simpl. lia.
Qed.

(** C1 (amended): along every run from the initial state in which each
    action's precondition holds and the reducer returns, invariants 1, 2
    and 3 hold after every transition; invariant 4 holds as well when
    every [add] and [rename] gives a record the reserved name only without
    a handle and only when no other record bears it. *)
Theorem C1_invariants_along_runs (actions : list FileAction) (s' : FilesState) :
  admissible precondition initialFiles actions →
  dispatchAll initialFiles actions = Normal s' →
  (inv_maps s' ∧ inv_unique s' ∧ inv_selected s') ∧
  (admissible respects_settings initialFiles actions → inv_settings s').
Proof.
  intros Hadm Hrun. split.
  - pose proof (run_store_inv actions _ _ initialFiles_store_inv Hadm Hrun)
      as (? & ? & ? & _).
    done.
  - intros Hres.
    exact (run_settings actions _ _ initialFiles_store_inv
             initialFiles_settings Hadm Hres Hrun).
Qed.

Lemma C1_invariants_along_runs_witness :
  ∃ s', dispatchAll initialFiles sample_run = Normal s' ∧ well_formed s'.
Proof.
  assert (admissible precondition initialFiles sample_run) as Hadm
    by (apply (bool_decide_unpack _); vm_compute; reflexivity).
  assert (admissible respects_settings initialFiles sample_run) as Hres
    by (apply (bool_decide_unpack _); vm_compute; reflexivity).
  destruct (dispatchAll initialFiles sample_run) as [s'|e] eqn:Hrun;
    [|vm_compute in Hrun; discriminate].
  exists s'. split; [reflexivity|].
  destruct (C1_invariants_along_runs sample_run s' Hadm Hrun)
    as [(H1 & H2 & H3) H4].
  exact (conj H1 (conj H2 (conj H3 (H4 Hres)))).
Defined.

Lemma one_file_invariants : store_inv one_file ∧ inv_settings one_file.
Proof.
  assert (dispatchAll initialFiles
            [add (Some (file_handle 0)) "main.py" "import os"]
          = Normal one_file) as Hrun by (vm_compute; reflexivity).
  split.
  - eapply run_store_inv; [apply initialFiles_store_inv| |exact Hrun].
    apply (bool_decide_unpack _); vm_compute; reflexivity.
  - eapply run_settings;
      [apply initialFiles_store_inv|apply initialFiles_settings| | |exact Hrun];
      apply (bool_decide_unpack _); vm_compute; reflexivity.
Qed.

(** C2 (failing input): the session holds the single file [main.py],
    which is selected; the spec has [remove] leave the selection empty, the
    reducer reads [state.index[1].id] and throws a [TypeError]. *)
Theorem C2_remove_only_file_throws :
  dispatchAll initialFiles [add (Some (file_handle 0)) "main.py" "import os"]
    = Normal one_file ∧
  filesReducer one_file (remove 0)
    = Throw (TypeError_property_of_undefined "id").
Proof. split; vm_compute; reflexivity. Qed.

(** C3 (failing input): the [rename] transition returns a state with the
    revision it was given; the counter is not bumped. *)
Theorem C3_rename_keeps_revision (s : FilesState) (i : FileId) (to : string)
    (h : option FileHandle) :
  ∃ s', filesReducer s (rename i to h) = Normal s' ∧ revision s' = revision s.
Proof. by eexists. Qed.

(** C4, as stated, fails for [change]: on the initial state, which is well
    formed, [change] with the unknown id 0 stores a content for an id that
    the index does not have. *)
Lemma C4_change_unknown_id_orphans :
  well_formed initialFiles ∧ (0 ∉ ids initialFiles) ∧
  ∃ s', filesReducer initialFiles (change 0 "x") = Normal s' ∧ ¬ well_formed s'.
Proof.
  split_and!.
  - destruct initialFiles_store_inv as (? & ? & ? & _).
    split_and!; try done. apply initialFiles_settings.
  - simpl. apply not_elem_of_nil.
  - eexists. split; [reflexivity|].
    intros ([Hc _] & _). simpl in Hc. rewrite dom_insert_L in Hc.
    assert (0 ∈ (∅ : gset Z)) as Hin; [|by apply not_elem_of_empty in Hin].
    unfold ids in Hc. simpl in Hc. rewrite <- Hc.
    apply elem_of_union_l, elem_of_singleton. done.
Qed.

(** C4 (amended): on a well-formed state and an id that is not in the
    index, [remove] only bumps the revision, so invariants 1 to 4 still
    hold; [change] stores the given content under the unknown id, bumps
    the revision and changes nothing else: invariants 2, 3 and 4 and the
    handles half of invariant 1 still hold, and [contents] is then defined
    for the ids of the index and for that id, so invariant 1 fails. *)
Theorem C4_unknown_id (s : FilesState) (i : FileId) (content : string) :
  well_formed s → i ∉ ids s →
  (filesReducer s (remove i) = Normal (bumpRevision s) ∧
   well_formed (bumpRevision s)) ∧
  (∃ s', filesReducer s (change i content) = Normal s' ∧
         contents s' = <[i := content]> (contents s) ∧
         contents s' !! i = Some content ∧
         index s' = index s ∧ handles s' = handles s ∧
         selected s' = selected s ∧ nextId s' = nextId s ∧
         revision s' = revision s + 1 ∧
         inv_unique s' ∧ inv_selected s' ∧ inv_settings s' ∧
         dom (handles s') = list_to_set (C := gset Z) (ids s') ∧
         dom (contents s') = {[i]} ∪ list_to_set (C := gset Z) (ids s') ∧
         ¬ inv_maps s').
Proof.
  intros ([Hc Hh] & Hnd & Hsel & Hset) Hi. split.
  - split; [|by split_and!].
    assert (selected s ≠ Some i) as Hne by (intros Heq; by apply Hi, Hsel).
    rewrite (remove_not_selected s i Hne). f_equal.
    unfold afterRemove, bumpRevision. f_equal.
    + by apply filter_unknown.
    + apply delete_id, not_elem_of_dom. by rewrite Hh, elem_of_list_to_set.
    + apply delete_id, not_elem_of_dom. by rewrite Hc, elem_of_list_to_set.
  - eexists. split; [reflexivity|]. simpl.
    split_and!; try done.
    + apply lookup_insert_eq.
    + by rewrite dom_insert_L, Hc.
    + intros [Hc' _]. unfold ids in Hc'. simpl in Hc'. apply Hi.
      apply (elem_of_list_to_set (C := gset Z)). unfold ids. rewrite <- Hc'.
      rewrite dom_insert_L. apply elem_of_union_l. by apply elem_of_singleton.
Qed.

Lemma C4_unknown_id_witness :
  (filesReducer one_file (remove 5) = Normal (bumpRevision one_file) ∧
   well_formed (bumpRevision one_file)) ∧
  (∃ s', filesReducer one_file (change 5 "x") = Normal s' ∧
         contents s' !! 5 = Some "x" ∧ ¬ inv_maps s').
Proof.
  destruct one_file_invariants as [(Hm & Hu & Hs & _) Hset].
  assert (5 ∉ ids one_file) as Hi.
  { simpl. intros Hin. apply list_elem_of_singleton in Hin. discriminate. }
  destruct (C4_unknown_id one_file 5 "x"
              (conj Hm (conj Hu (conj Hs Hset))) Hi)
    as [Hremove (s' & Hrun & _ & Hlookup & Hrest)].
  split; [exact Hremove|]. exists s'.
  split; [exact Hrun|]. split; [exact Hlookup|].
  exact (proj2 (proj2 (proj2 (proj2 (proj2 (proj2 (proj2 (proj2 (proj2
           (proj2 Hrest)))))))))).
Defined.

(** On a state whose id counter is not yet a key of [contents] or
    [handles], [add] has the expected effect. *)
Lemma add_effect_fresh (s : FilesState) (h : option FileHandle)
    (nm content : string) :
  nextId s ∉ dom (contents s) → nextId s ∉ dom (handles s) →
  ∃ s', filesReducer s (add h nm content) = Normal s' ∧
        add_effect s h nm content s'.
Proof.
  intros Hc Hh. eexists. split; [reflexivity|].
  unfold add_effect. simpl. rewrite !lookup_insert_eq.
  split_and!; try done.
  - intros i Hi. apply lookup_insert_ne. by intros <-.
  - intros i Hi. apply lookup_insert_ne. by intros <-.
Qed.

(** C9: in every state of a session (a state the reducer reaches from the
    initial one along actions whose preconditions hold), [add] takes the
    counter as the new id and increases it by one, appends the record to
    the end of the display order, stores the content and the handle under
    the new id, selects it and bumps the revision by one; earlier records,
    contents and handles are unchanged. *)
Theorem C9_add_effect (actions : list FileAction) (s : FilesState)
    (h : option FileHandle) (nm content : string) :
  admissible precondition initialFiles actions →
  dispatchAll initialFiles actions = Normal s →
  ∃ s', filesReducer s (add h nm content) = Normal s' ∧
        add_effect s h nm content s'.
Proof.
  intros Hadm Hrun.
  pose proof (run_store_inv actions _ _ initialFiles_store_inv Hadm Hrun)
    as Hinv.
  destruct (store_inv_fresh s Hinv) as [Hc Hh].
  by apply add_effect_fresh.
Qed.

Lemma C9_add_effect_witness :
  ∃ s s', dispatchAll initialFiles sample_run = Normal s ∧
          filesReducer s (add None "notes.py" "x = 1") = Normal s' ∧
          add_effect s None "notes.py" "x = 1" s'.
Proof.
  assert (admissible precondition initialFiles sample_run) as Hadm
    by (apply (bool_decide_unpack _); vm_compute; reflexivity).
  destruct (dispatchAll initialFiles sample_run) as [s|e] eqn:Hrun;
    [|vm_compute in Hrun; discriminate].
  destruct (C9_add_effect sample_run s None "notes.py" "x = 1" Hadm Hrun)
    as (s' & Hstep & Heffect).
  exists s, s'. exact (conj eq_refl (conj Hstep Heffect)).
Defined.

(** C10: [selectFile] sets the selection to the id it is given, whether or
    not the index has it, and changes nothing else; with an unknown id the
    new selection names no record. *)
Theorem C10_selectFile_unchecked (s : FilesState) (i : FileId) :
  filesReducer s (selectFile i) = Normal (withSelected s (Some i)) ∧
  (i ∉ ids s → ¬ inv_selected (withSelected s (Some i))).
Proof.
  split; [reflexivity|].
  intros Hi Hsel. apply Hi. by apply (Hsel i).
Qed.

Lemma C10_selectFile_unchecked_witness :
  filesReducer one_file (selectFile 7) = Normal (withSelected one_file (Some 7)) ∧
  ¬ inv_selected (withSelected one_file (Some 7)).
Proof.
  destruct (C10_selectFile_unchecked one_file 7) as [Hrun Hbad].
  split; [exact Hrun|]. apply Hbad.
  simpl. intros Hin. apply list_elem_of_singleton in Hin. discriminate.
Defined.

(** ** WorkspaceBridge and AnalysisPipeline: the claims *)

(** C6: when a file with an engine handle is selected and its check
    returns [ds], a throw of the selected secondary tool's query yields
    the error in the secondary slot only; the result carries [ds] and no
    primary error. *)
Theorem C6_secondary_failure_keeps_diagnostics `{Env : Environment}
    (files : FilesState) (workspace : Workspace) (tool : SecondaryTool)
    (deferredContent : string) (sel : FileId) (h : FileHandle)
    (ds : list Diagnostic) (e : thrown) :
  selected files = Some sel →
  mjoin (handles files !! sel) = Some h →
  isPythonFile h = true →
  Workspace_checkFile workspace h = Normal ds →
  secondaryToolThrows workspace tool h e →
  useCheckResult files workspace (Some tool) (Some deferredContent) =
    {| diagnostics := ds; checkError := None;
       secondary := Some (SecondaryError (errorMessage e)) |}.
Proof.
  intros Hsel Hh Hpy Hcheck Hthrow. unfold useCheckResult.
  rewrite Hsel, Hh, Hpy, Hcheck.
  destruct tool; simpl in Hthrow; simpl; [by rewrite Hthrow..|done].
Qed.

Lemma C6_secondary_failure_keeps_diagnostics_witness :
  useCheckResult (Env := stub) one_file (0%N : @Workspace stub) (Some AST)
    (Some "import os") =
    @Build_CheckResult stub ["division-by-zero"] None
      (Some (SecondaryError "parse failed")).
Proof.
  apply (C6_secondary_failure_keeps_diagnostics (Env := stub) one_file 0%N AST
           "import os" 0 (file_handle 0)
           (["division-by-zero"] : list (@Diagnostic stub))
           (ErrorObject "parse failed"));
    reflexivity.
Defined.

(** C7: when the text does not parse, [updateOptions] sets the error to
    the fixed label followed by the formatted message, calls nothing on
    the engine and leaves its state as it was; when the text parses and
    the engine accepts the settings, the error is cleared. (When the
    engine rejects parsed settings the same label is shown; the call was
    made.) *)
Theorem C7_updateOptions `{Env : Environment} (workspace : option WorkspaceRef)
    (content : option string) (w : World) :
  let text := default DEFAULT_SETTINGS content in
  let w' := (updateOptions workspace content w).2 in
  (∀ e, JSON_parse text = Throw e →
        error w' = Some (settingsErrorLabel +:+ formatError e) ∧
        engine w' = engine w ∧ log w' = log w) ∧
  (∀ settings eng', JSON_parse text = Normal settings →
        workspace = Some the_workspace →
        Workspace_updateOptions (engine w) settings = (Normal (), eng') →
        error w' = None ∧ engine w' = eng' ∧
        log w' = log w ++ [CallUpdateOptions settings]) ∧
  (∀ settings, JSON_parse text = Normal settings → workspace = None →
        error w' = None ∧ engine w' = engine w ∧ log w' = log w) ∧
  (∀ settings e eng', JSON_parse text = Normal settings →
        workspace = Some the_workspace →
        Workspace_updateOptions (engine w) settings = (Throw e, eng') →
        error w' = Some (settingsErrorLabel +:+ formatError e) ∧
        log w' = log w ++ [CallUpdateOptions settings]).
Proof.
  simpl. split_and!.
  - intros e Hparse. unfold updateOptions. by rewrite Hparse.
  - intros settings eng' Hparse -> Hcall. unfold updateOptions.
    rewrite Hparse. unfold seq, callUpdateOptions. by rewrite Hcall.
  - intros settings Hparse ->. unfold updateOptions. by rewrite Hparse.
  - intros settings e eng' Hparse -> Hcall. unfold updateOptions.
    rewrite Hparse. unfold seq, callUpdateOptions. by rewrite Hcall.
Qed.

Lemma C7_updateOptions_witness :
  let w : World (Env := stub) :=
    {| engine := 3%N : @Workspace stub;
       error := Some "Failed to update file: stale";
       log := [] |} in
  (error (updateOptions (Some the_workspace) (Some "rules = 1") w).2
     = Some "Failed to update 'knot.json' options: expected value at line 1 column 1" ∧
   log (updateOptions (Some the_workspace) (Some "rules = 1") w).2 = []) ∧
  error (updateOptions (Some the_workspace) (Some "{}") w).2 = None.
Proof.
  intros w.
  destruct (C7_updateOptions (Env := stub) (Some the_workspace)
              (Some "rules = 1") w) as [Hfail _].
  destruct (C7_updateOptions (Env := stub) (Some the_workspace)
              (Some "{}") w) as (_ & Hok & _).
  destruct (Hfail (ErrorObject "Error: expected value at line 1 column 1")
              eq_refl) as (Herr & _ & Hlog).
  destruct (Hok "{}" 3%N eq_refl eq_refl eq_refl) as (Hclear & _).
  exact (conj (conj Herr Hlog) Hclear).
Defined.

Section bridge_facts.
Context `{Env : Environment}.

Lemma dispatched_app (l1 l2 : list Event) :
  dispatched (l1 ++ l2) = dispatched l1 ++ dispatched l2.
Proof. unfold dispatched. apply omap_app. Qed.

Lemma seq_run {A B} (c : Bridge A) (k : A → Bridge B) (w : World) :
  seq c k w = k (c w).1 (c w).2.
Proof. unfold seq. by destruct (c w). Qed.

Lemma seqThrow_run {A B} (c : Bridge (completion A))
    (k : A → Bridge (completion B)) (w : World) :
  seqThrow c k w =
    match (c w).1 with
    | Normal a => k a (c w).2
    | Throw e => (Throw e, (c w).2)
    end.
Proof. unfold seqThrow. by destruct (c w) as [[a|e] w']. Qed.

Lemma returning_run {A} (c : Bridge A) (w : World) :
  returning c w = (Normal (c w).1, (c w).2).
Proof. unfold returning. by destruct (c w). Qed.

(** [updateOptions] dispatches nothing and only ever appends engine calls. *)
Lemma updateOptions_log workspace content w :
  ∃ calls, log (updateOptions workspace content w).2 = log w ++ calls ∧
           dispatched calls = [].
Proof.
  unfold updateOptions.
  destruct (JSON_parse _) as [settings|e]; simpl.
  - rewrite seq_run. destruct workspace as [ws|]; simpl.
    + unfold callUpdateOptions.
      destruct (Workspace_updateOptions _ _) as [[[]|e] eng']; simpl;
        by eexists [_].
    + exists []. by rewrite app_nil_r.
  - exists []. by rewrite app_nil_r.
Qed.

Lemma openFile_run nm content w :
  openFile nm content w =
    ((Workspace_openFile (engine w) nm content).1,
     emit (CallOpenFile nm content)
          (Workspace_openFile (engine w) nm content).2 w).
Proof. unfold openFile. by destruct (Workspace_openFile _ _ _). Qed.

Lemma closeFile_run h w :
  closeFile h w =
    ((Workspace_closeFile (engine w) h).1,
     emit (CallCloseFile h) (Workspace_closeFile (engine w) h).2 w).
Proof. unfold closeFile. by destruct (Workspace_closeFile _ _). Qed.

Lemma scenario_start (eng e1 : Workspace) (old : FileHandle) :
  Workspace_openFile eng "main.py" (Some "import os") = (Normal old, e1) →
  let w0 := (startWorkspace the_workspace
               [("main.py", "import os"); ("knot.json", "{}")] "main.py"
               (freshWorld eng)).2 in
  dispatched (log w0) =
    [ add (Some old) "main.py" "import os";
      add None "knot.json" "{}";
      selectFileByName "main.py" ].
Proof.
  intros Hopen. simpl. unfold startWorkspace, openEntries.
  rewrite !seqThrow_run. rewrite decide_False by (by intros [=]).
  rewrite seqThrow_run, openFile_run. simpl. rewrite Hopen. simpl.
  rewrite ?seq_run. simpl. rewrite ?seqThrow_run, ?seq_run. simpl.
  rewrite ?seq_run, ?returning_run. simpl.
  match goal with |- context [updateOptions ?a ?b ?w] =>
    destruct (updateOptions_log a b w) as (calls & Hlog & Hnone) end.
  rewrite Hlog. simpl.
  rewrite !dispatched_app, Hnone. done.
Qed.

(** C5: a session started from [main.py] (content [import os]) and
    [knot.json] has [main.py] selected at position 0; renaming it to
    [lib.py], with an engine whose calls for the scenario return, closes
    the old handle, then opens [lib.py] with the same content, and only
    then dispatches [rename]; the transition leaves the record at
    position 0 and its content as it was. *)
Theorem C5_rename_scenario (eng e1 e2 e3 : Workspace) (old new : FileHandle) :
  Workspace_openFile eng "main.py" (Some "import os") = (Normal old, e1) →
  let w0 := (startWorkspace the_workspace
               [("main.py", "import os"); ("knot.json", "{}")] "main.py"
               (freshWorld eng)).2 in
  Workspace_closeFile (engine w0) old = (Normal (), e2) →
  Workspace_openFile e2 "lib.py" (Some "import os") = (Normal new, e3) →
  let files := scenarioFiles old in
  let w1 := (handleFileRenamed files the_workspace 0 "lib.py" w0).2 in
  dispatchAll initialFiles (dispatched (log w0)) = Normal files ∧
  fileName files = "main.py" ∧
  log w1 = log w0 ++ [CallCloseFile old;
                      CallOpenFile "lib.py" (Some "import os");
                      Dispatch (rename 0 "lib.py" (Some new))] ∧
  ∃ files',
    filesReducer files (rename 0 "lib.py" (Some new)) = Normal files' ∧
    index files' = [{| id := 0; name := "lib.py" |};
                    {| id := 1; name := "knot.json" |}] ∧
    contents files' !! 0 = Some "import os".
Proof.
  intros Hopen w0 Hclose Hopen' files w1. split_and!.
  - subst w0. rewrite (scenario_start eng e1 old Hopen). vm_compute. reflexivity.
  - reflexivity.
  - subst w1 files. unfold handleFileRenamed, scenarioFiles. simpl.
    rewrite !lookup_insert_eq. simpl.
    rewrite seqThrow_run, closeFile_run, Hclose. simpl.
    rewrite seqThrow_run, seqThrow_run, openFile_run. simpl.
    rewrite Hopen'. simpl. rewrite ?returning_run. simpl.
    rewrite <- !app_assoc. reflexivity.
  - eexists. split; [reflexivity|]. split; reflexivity.
Qed.
End bridge_facts.

Lemma C5_rename_scenario_witness :
  let w0 := (startWorkspace (Env := stub) the_workspace
               [("main.py", "import os"); ("knot.json", "{}")] "main.py"
               (freshWorld (0%N : @Workspace stub))).2 in
  log (handleFileRenamed (Env := stub) (scenarioFiles (file_handle 0))
         the_workspace 0 "lib.py" w0).2 =
    log w0 ++ [CallCloseFile (file_handle 0);
               CallOpenFile "lib.py" (Some "import os");
               Dispatch (rename 0 "lib.py" (Some (file_handle 1)))].
Proof.
  intros w0.
  assert (@Workspace_closeFile stub (engine w0) (file_handle 0)
          = (Normal (), 1%N)) as Hclose by (vm_compute; reflexivity).
  destruct (C5_rename_scenario (Env := stub) 0%N 1%N 1%N 2%N
              (file_handle 0) (file_handle 1) eq_refl Hclose eq_refl)
    as (_ & _ & Hlog & _).
  exact Hlog.
Defined.

(** ** PersistenceGateway: serialising and restoring *)

Section serialize_facts.
Implicit Types (s fs : FilesState) (r : FileRecord).

Lemma dispatchAll_app s l1 l2 :
  dispatchAll s (l1 ++ l2) = s1 ← dispatchAll s l1; dispatchAll s1 l2.
Proof.
  revert s. induction l1 as [|a l1 IH]; intros s; simpl; [done|].
  destruct (filesReducer s a) as [s1|e]; simpl; [apply IH|done].
Qed.

Lemma serialize_fold_files fs acc l :
  (foldl (serializeStep fs) acc l).1 =
  foldl insertEntry acc.1 ((λ file, (name file, contents fs !! id file)) <$> l).
Proof.
  revert acc. induction l as [|r l IH]; intros acc; simpl; [done|].
  by rewrite IH.
Qed.



Lemma foldl_insertEntry {V} (es : list (string * V)) :
  foldl insertEntry ∅ es = list_to_map (reverse es).
Proof.
  induction es as [|e es IH] using rev_ind; [done|].
  rewrite foldl_app, reverse_snoc. simpl. rewrite IH. by destruct e.
Qed.

Lemma foldl_insertEntry_unique {V} (es : list (string * V)) :
  NoDup es.*1 → foldl insertEntry ∅ es = list_to_map es.
Proof.
  intros Hnd. rewrite foldl_insertEntry.
  apply list_to_map_proper; [|apply reverse_Permutation].
  by rewrite fmap_reverse, (reverse_Permutation es.*1).
Qed.

Lemma serializeFiles_eq fs :
  serializeFiles fs =
    match (foldl (serializeStep fs) (∅, None) (index fs)).2 with
    | None => None
    | Some cur => Some {| files := list_to_map (reverse (listing fs)); current := cur |}
    end.
Proof.
  unfold serializeFiles.
  pose proof (serialize_fold_files fs (∅, None) (index fs)) as Hfiles.
  destruct (foldl _ _ _) as [m sel]. simpl in *.
  destruct sel; [|done]. f_equal. f_equal.
  rewrite Hfiles. apply foldl_insertEntry.
Qed.


End serialize_facts.

Section restore_facts.
Context `{Env : Environment}.
Implicit Types (s fs : FilesState) (r : FileRecord) (w : World).

Lemma updateOptions_calls workspace content w :
  ∃ calls, log (updateOptions workspace content w).2 = log w ++ calls ∧
           Forall isUpdateOptions calls.
Proof.
  unfold updateOptions.
  destruct (JSON_parse _) as [settings|e]; simpl.
  - rewrite seq_run. destruct workspace as [ws|]; simpl.
    + unfold callUpdateOptions.
      destruct (Workspace_updateOptions _ _) as [[[]|e] eng']; simpl;
        (eexists [_]; split; [done|]; apply Forall_singleton; by eexists).
    + exists []. by rewrite app_nil_r.
  - exists []. by rewrite app_nil_r.
Qed.

Lemma isUpdateOptions_dispatched calls :
  Forall isUpdateOptions calls → dispatched calls = [].
Proof. induction 1 as [|ev l [st ->] _ IH]; [done|]. by simpl. Qed.

Lemma isUpdateOptions_openCalls calls :
  Forall isUpdateOptions calls → openCalls calls = [].
Proof. induction 1 as [|ev l [st ->] _ IH]; [done|]. by simpl. Qed.

Lemma isUpdateOptions_closeCalls calls :
  Forall isUpdateOptions calls → closeCalls calls = [].
Proof. induction 1 as [|ev l [st ->] _ IH]; [done|]. by simpl. Qed.

Lemma openCalls_app (l1 l2 : list Event) :
  openCalls (l1 ++ l2) = openCalls l1 ++ openCalls l2.
Proof. unfold openCalls. apply omap_app. Qed.

Lemma closeCalls_app (l1 l2 : list Event) :
  closeCalls (l1 ++ l2) = closeCalls l1 ++ closeCalls l2.
Proof. unfold closeCalls. apply omap_app. Qed.

Lemma opensFor_cons_settings content entries :
  opensFor ((SETTINGS_FILE_NAME, content) :: entries) = opensFor entries.
Proof. unfold opensFor. by rewrite filter_cons_False by (simpl; by intros []). Qed.

Lemma opensFor_cons_other nm content entries :
  nm ≠ SETTINGS_FILE_NAME →
  opensFor ((nm, content) :: entries) = (nm, Some content) :: opensFor entries.
Proof. intros Hnm. unfold opensFor. by rewrite filter_cons_True by done. Qed.

Lemma opensFor_app l1 l2 : opensFor (l1 ++ l2) = opensFor l1 ++ opensFor l2.
Proof. unfold opensFor. by rewrite filter_app, fmap_app. Qed.

(** The loop of start-up, to its end or to the [openFile] that throws:
    [done] are the entries whose [add] was dispatched. *)
Lemma openEntries_events workspace entries hasSettings w :
  ∃ done acts,
    dispatched (log (openEntries workspace entries hasSettings w).2)
      = dispatched (log w) ++ acts ∧
    addsFor done acts ∧ Forall bridgeShaped acts ∧
    closeCalls (log (openEntries workspace entries hasSettings w).2)
      = closeCalls (log w) ∧
    match (openEntries workspace entries hasSettings w).1 with
    | Normal _ =>
        done = entries ∧
        openCalls (log (openEntries workspace entries hasSettings w).2)
          = openCalls (log w) ++ opensFor entries
    | Throw e =>
        ∃ failed rest,
          entries = done ++ failed :: rest ∧
          failed.1 ≠ SETTINGS_FILE_NAME ∧
          openCalls (log (openEntries workspace entries hasSettings w).2)
            = openCalls (log w) ++ opensFor done ++ [(failed.1, Some failed.2)]
    end.
Proof.
  revert hasSettings w.
  induction entries as [|[nm content] entries IH]; intros hasSettings w.
  - exists [], []. simpl. rewrite !app_nil_r. split_and!; try done; constructor.
  - simpl. rewrite seqThrow_run.
    destruct (decide (nm = SETTINGS_FILE_NAME)) as [->|Hnm].
    + rewrite seq_run. simpl.
      destruct (updateOptions_calls (Some workspace) (Some content) w)
        as (calls & Hlog & Hall).
      rewrite seq_run. simpl.
      match goal with |- context [openEntries _ _ ?b ?w1] =>
        destruct (IH b w1) as (done & acts & Hacts & Hadds & Hshape & Hclose & Hres);
        destruct (openEntries workspace entries b w1).1 as [hs|e] eqn:Hr
      end.
      * destruct Hres as [-> Hopen].
        exists ((SETTINGS_FILE_NAME, content) :: entries),
               (add None SETTINGS_FILE_NAME content :: acts).
        rewrite Hacts, Hopen, Hclose. simpl.
        rewrite Hlog, !dispatched_app, !openCalls_app, !closeCalls_app.
        rewrite (isUpdateOptions_dispatched _ Hall),
          (isUpdateOptions_openCalls _ Hall), (isUpdateOptions_closeCalls _ Hall).
        simpl. rewrite !app_nil_r, <- !app_assoc, opensFor_cons_settings.
        split_and!; try done.
        -- constructor; [by eexists|done].
        -- constructor; [by simpl|done].
      * destruct Hres as (failed & rest & -> & Hfailed & Hopen).
        exists ((SETTINGS_FILE_NAME, content) :: done),
               (add None SETTINGS_FILE_NAME content :: acts).
        rewrite Hacts, Hopen, Hclose. simpl.
        rewrite Hlog, !dispatched_app, !openCalls_app, !closeCalls_app.
        rewrite (isUpdateOptions_dispatched _ Hall),
          (isUpdateOptions_openCalls _ Hall), (isUpdateOptions_closeCalls _ Hall).
        simpl. rewrite !app_nil_r, <- !app_assoc, opensFor_cons_settings.
        split_and!; try done.
        -- constructor; [by eexists|done].
        -- constructor; [by simpl|done].
        -- by exists failed, rest.
    + rewrite seqThrow_run, openFile_run. simpl.
      destruct (Workspace_openFile (engine w) nm (Some content)) as [[h|e] eng'].
      * simpl. rewrite seq_run. simpl.
        match goal with |- context [openEntries _ _ ?b ?w1] =>
          destruct (IH b w1) as (done & acts & Hacts & Hadds & Hshape & Hclose & Hres);
          destruct (openEntries workspace entries b w1).1 as [hs|e] eqn:Hr
        end.
        -- destruct Hres as [-> Hopen].
           exists ((nm, content) :: entries), (add (Some h) nm content :: acts).
           rewrite Hacts, Hopen, Hclose. simpl.
           rewrite !dispatched_app, !openCalls_app, !closeCalls_app.
           simpl. rewrite !app_nil_r, <- !app_assoc, opensFor_cons_other by done.
           split_and!; try done.
           ++ constructor; [by eexists|done].
           ++ constructor; [|done]. simpl. split; [done|]. by intros ?.
        -- destruct Hres as (failed & rest & -> & Hfailed & Hopen).
           exists ((nm, content) :: done), (add (Some h) nm content :: acts).
           rewrite Hacts, Hopen, Hclose. simpl.
           rewrite !dispatched_app, !openCalls_app, !closeCalls_app.
           simpl. rewrite !app_nil_r, <- !app_assoc, opensFor_cons_other by done.
           split_and!; try done.
           ++ constructor; [by eexists|done].
           ++ constructor; [|done]. simpl. split; [done|]. by intros ?.
           ++ by exists failed, rest.
      * simpl. exists [], [].
        rewrite !dispatched_app, !openCalls_app, !closeCalls_app.
        simpl. rewrite !app_nil_r.
        split_and!; try done; try constructor.
        by exists (nm, content), entries.
Qed.

(** The whole start-up callback. *)
Lemma startWorkspace_events workspace entries cur eng :
  ∃ done acts,
    addsFor done acts ∧ Forall bridgeShaped acts ∧
    closeCalls (log (startWorkspace workspace entries cur (freshWorld eng)).2) = [] ∧
    match (startWorkspace workspace entries cur (freshWorld eng)).1 with
    | Normal _ =>
        done = entries ∧
        dispatched (log (startWorkspace workspace entries cur (freshWorld eng)).2)
          = acts ++ [selectFileByName cur] ∧
        openCalls (log (startWorkspace workspace entries cur (freshWorld eng)).2)
          = opensFor entries
    | Throw e =>
        ∃ failed rest,
          entries = done ++ failed :: rest ∧
          failed.1 ≠ SETTINGS_FILE_NAME ∧
          dispatched (log (startWorkspace workspace entries cur (freshWorld eng)).2)
            = acts ∧
          openCalls (log (startWorkspace workspace entries cur (freshWorld eng)).2)
            = opensFor done ++ [(failed.1, Some failed.2)]
    end.
Proof.
  unfold startWorkspace. rewrite seqThrow_run.
  destruct (openEntries_events workspace entries false (freshWorld eng))
    as (done & acts & Hacts & Hadds & Hshape & Hclose & Hres).
  exists done, acts.
  destruct (openEntries workspace entries false (freshWorld eng)).1
    as [hasSettings|e] eqn:Hr.
  - destruct Hres as [-> Hopen]. rewrite seq_run, returning_run. simpl.
    rewrite dispatched_app, openCalls_app, closeCalls_app. simpl.
    rewrite !app_nil_r.
    destruct hasSettings.
    + simpl. by rewrite Hacts, Hopen, Hclose.
    + destruct (updateOptions_calls (Some workspace) None
                  (openEntries workspace entries false (freshWorld eng)).2)
        as (calls & Hlog & Hall).
      rewrite Hlog, dispatched_app, openCalls_app, closeCalls_app.
      rewrite (isUpdateOptions_dispatched _ Hall),
        (isUpdateOptions_openCalls _ Hall), (isUpdateOptions_closeCalls _ Hall).
      rewrite !app_nil_r. by rewrite Hacts, Hopen, Hclose.
  - simpl. destruct Hres as (failed & rest & -> & Hfailed & Hopen).
    split_and!; try done. exists failed, rest. by rewrite Hacts, Hopen.
Qed.
Lemma add_listing s h nm c :
  store_inv s →
  listing {| selected := Some (nextId s);
             index := index s ++ [{| id := nextId s; name := nm |}];
             handles := <[nextId s := h]> (handles s);
             contents := <[nextId s := c]> (contents s);
             revision := revision s + 1;
             nextId := nextId s + 1 |} = listing s ++ [(nm, Some c)].
Proof.
  intros (_ & _ & _ & Hlt). unfold listing. simpl.
  rewrite fmap_app. simpl. rewrite lookup_insert_eq. f_equal.
  apply list_fmap_ext. intros k r Hr. rewrite lookup_insert_ne; [done|].
  intros Heq.
  assert (id r ∈ ids s) as Hin by (apply elem_of_ids; eauto).
  apply (proj1 (Forall_forall _ _) Hlt) in Hin. lia.
Qed.

Lemma adds_run entries acts s :
  addsFor entries acts → store_inv s →
  ∃ s', dispatchAll s acts = Normal s' ∧ store_inv s' ∧
        listing s' = listing s ++ (prod_map Datatypes.id Some <$> entries).
Proof.
  intros Hadds. revert s.
  induction Hadds as [|e a entries acts [h ->] _ IH]; intros s Hinv.
  - exists s. by rewrite app_nil_r.
  - simpl.
    destruct (IH _ (add_store_inv s h e.1 e.2 Hinv)) as (s' & Hrun & Hinv' & Hl).
    exists s'. split_and!; [done|done|].
    rewrite Hl, add_listing by done. rewrite <- app_assoc. by destruct e.
Qed.

Lemma find_first {A} (p : A → bool) (l : list A) x :
  x ∈ l → p x = true →
  ∃ k y, find p l = Some y ∧ l !! k = Some y ∧ p y = true.
Proof.
  intros Hin Hp. rewrite find_list_find.
  destruct (list_find_elem_of (λ x, p x = true) l x Hin Hp) as [[k y] Hf].
  rewrite Hf. apply list_find_Some in Hf as (Hk & Hy & _). eauto.
Qed.


Lemma find_unique_id (l : list FileRecord) k r :
  NoDup (id <$> l) → l !! k = Some r →
  find (λ file, bool_decide (Some (id file) = Some (id r))) l = Some r.
Proof.
  intros Hnd Hk.
  destruct (find_first (λ file, bool_decide (Some (id file) = Some (id r))) l r)
    as (k' & y & Hfind & Hk' & Hy).
  { by eapply list_elem_of_lookup_2. }
  { by apply bool_decide_eq_true_2. }
  rewrite Hfind. f_equal. apply bool_decide_eq_true_1 in Hy.
  eapply unique_record; [exact Hnd|exact Hk| |congruence].
  by eapply list_elem_of_lookup_2.
Qed.

Lemma fileName_selected s k r :
  inv_unique s → index s !! k = Some r → selected s = Some (id r) →
  fileName s = name r.
Proof.
  intros Hnd Hk Hsel. unfold fileName. rewrite Hsel.
  by rewrite (find_unique_id _ k r Hnd Hk).
Qed.

Lemma find_none {A} (p : A → bool) (l : list A) :
  Forall (λ x, p x = false) l → find p l = None.
Proof.
  induction 1 as [|x l' Hx _ IH]; simpl; [done|]. by rewrite Hx.
Qed.




End restore_facts.



(** * Further properties of the code *)

(** ** SessionStore: further properties of the reducer *)

Section store_extras.
Implicit Types (s : FilesState) (i j : FileId) (r : FileRecord).

(** X1: after [selectFileByName], on an index without duplicate ids, the
    name shown for the selection is the requested name when some record
    bears it; otherwise nothing is selected and the shown name falls back
    to [lib.py]. *)
Theorem X1_selectFileByName_fileName s nm :
  inv_unique s →
  ∃ s', filesReducer s (selectFileByName nm) = Normal s' ∧
        (nm ∈ name <$> index s → fileName s' = nm) ∧
        (nm ∉ name <$> index s → selected s' = None ∧ fileName s' = "lib.py").
Proof.
  intros Hnd. eexists. split; [reflexivity|]. split.
  - intros (r & -> & Hr)%list_elem_of_fmap.
    destruct (find_first (λ file, bool_decide (name file = name r)) (index s) r Hr)
      as (k & r0 & Hfind & Hk & Hr0); [by apply bool_decide_eq_true_2|].
    apply bool_decide_eq_true_1 in Hr0. trans (name r0); [|done].
    apply (fileName_selected _ k r0); [done|done|].
    simpl. by rewrite Hfind.
  - intros Hnot.
    assert (find (λ file, bool_decide (name file = nm)) (index s) = None) as Hnone.
    { apply find_none, Forall_forall. intros r Hr.
      apply bool_decide_eq_false_2. intros <-. apply Hnot.
      apply list_elem_of_fmap. eauto. }
    simpl. rewrite Hnone. split; [done|].
    unfold fileName. simpl. rewrite find_none; [done|].
    apply Forall_forall. by intros r _.
Qed.

(** X2: renaming the selected file (ids unique, id in the index) returns a
    state whose shown name is the new name; the selection, the ids in
    display order and the contents are as before. *)
Theorem X2_rename_selected_fileName s i to h :
  inv_unique s → i ∈ ids s → selected s = Some i →
  ∃ s', filesReducer s (rename i to h) = Normal s' ∧
        fileName s' = to ∧ selected s' = Some i ∧
        ids s' = ids s ∧ contents s' = contents s.
Proof.
  intros Hnd (k & r & Hk & <-)%elem_of_ids Hsel.
  rewrite (rename_known s k r to h Hnd Hk). eexists. split; [reflexivity|].
  split_and!; try done; [|by apply ids_rename].
  apply (fileName_selected _ k {| id := id r; name := to |}); simpl.
  - unfold inv_unique, ids. simpl. by rewrite (ids_rename s k r to Hk).
  - apply list_lookup_insert_eq. by eapply lookup_lt_Some.
  - done.
Qed.

(** X3: [rename] with an id that no record has finds position -1, so the
    [splice] replaces the last record of the index by a record with the
    unknown id (on an empty index it appends one), and a handle entry is
    stored under that id. *)
Theorem X3_rename_unknown_id s i to h :
  i ∉ ids s →
  filesReducer s (rename i to h) =
    Normal {| selected := selected s;
              index := take (length (index s) - 1) (index s)
                         ++ [{| id := i; name := to |}];
              handles := <[i := h]> (handles s);
              contents := contents s;
              revision := revision s;
              nextId := nextId s |}.
Proof.
  intros Hi. simpl. rewrite (findIndex_unknown s i Hi). do 2 f_equal.
  unfold splice. rewrite decide_True by lia.
  destruct (index s) as [|r l] eqn:Hl; [done|].
  set (n := length (r :: l)). assert (0 < n)%nat by (subst n; simpl; lia).
  replace (Z.to_nat (Z.max (Z.of_nat n + -1) 0)) with (n - 1)%nat by lia.
  replace (Z.to_nat _) with n by lia.
  by rewrite (drop_ge (r :: l) n) by (subst n; lia).
Qed.

(** X4: on an index without duplicate ids and an id of the index, [remove]
    throws exactly when the id is selected and is the only record. *)
Theorem X4_remove_throws_iff s i :
  inv_unique s → i ∈ ids s →
  (∃ e, filesReducer s (remove i) = Throw e) ↔
  (selected s = Some i ∧ length (index s) = 1%nat).
Proof.
  intros Hnd (k & r & Hk & <-)%elem_of_ids.
  pose proof (lookup_lt_Some _ _ _ Hk) as Hlen.
  destruct (decide (selected s = Some (id r))) as [Hsel|Hsel].
  - rewrite (remove_selected s k r Hnd Hk Hsel).
    destruct (decide (0 < k)%nat) as [Hpos|Hzero].
    + destruct (lookup_lt_is_Some_2 (index s) (k - 1)%nat) as [r' Hr']; [lia|].
      rewrite Hr'. split; [by intros [e ?]|]. intros [_ ?]. lia.
    + destruct (index s !! (k + 1)%nat) as [r'|] eqn:Hr'.
      * apply lookup_lt_Some in Hr' as ?.
        split; [by intros [e ?]|]. intros [_ ?]. lia.
      * apply lookup_ge_None in Hr'. split; [|by eexists].
        intros _. split; [done|lia].
  - rewrite (remove_not_selected s (id r) Hsel).
    split; [by intros [e ?]|]. by intros [? _].
Qed.

Lemma step_nextId_mono s a s1 :
  filesReducer s a = Normal s1 → nextId s ≤ nextId s1.
Proof.
  destruct a as [h nm c|i c|i to h|i|i|nm]; simpl;
    try (intros [= <-]; simpl; lia).
  destruct (decide _); simpl.
  - destruct (property _ _ _); simpl; [|done]. intros [= <-]. simpl. lia.
  - intros [= <-]. simpl. lia.
Qed.

Lemma countWhere_cons {A} (p : A → bool) a (l : list A) :
  countWhere p (a :: l) = (if p a then 1 else 0) + countWhere p l.
Proof.
  unfold countWhere. rewrite filter_cons.
  destruct (p a); [rewrite decide_True by done|rewrite decide_False by done];
    simpl; lia.
Qed.

(** X5: along every returning run the id counter grows by the number of
    [add] actions and the revision by the number of [add], [change] and
    [remove] actions; [rename] and the two selections count for neither. *)
Theorem X5_counters_along_runs actions s s' :
  dispatchAll s actions = Normal s' →
  nextId s' = nextId s + countWhere allocatesId actions ∧
  revision s' = revision s + countWhere setsRevision actions.
Proof.
  revert s. induction actions as [|a rest IH]; intros s Hrun.
  - injection Hrun as <-. unfold countWhere. simpl. lia.
  - simpl in Hrun. destruct (filesReducer s a) as [s1|e] eqn:Hstep; [|done].
    simpl in Hrun. destruct (IH s1 Hrun) as [Hn Hr].
    rewrite !countWhere_cons, Hn, Hr.
    destruct a as [h nm c|i c|i to h|i|i|nm]; simpl in Hstep;
      try (injection Hstep as <-; simpl; lia).
    apply remove_bumps_revision in Hstep as Hrev.
    assert (nextId s1 = nextId s) as ->; [|simpl; lia].
    simpl in Hstep. destruct (decide _); simpl in Hstep.
    + destruct (property _ _ _); simpl in Hstep; [|done]. by injection Hstep as <-.
    + by injection Hstep as <-.
Qed.

(** X6: an id below the counter that the index does not hold (one that
    was removed) is never in the index again, along every returning run
    whose preconditions hold. *)
Theorem X6_ids_never_reused actions s s' i :
  store_inv s → i < nextId s → i ∉ ids s →
  admissible precondition s actions →
  dispatchAll s actions = Normal s' →
  i ∉ ids s'.
Proof.
  revert s. induction actions as [|a rest IH]; intros s Hinv Hlt Hi Hadm Hrun.
  - by injection Hrun as <-.
  - simpl in Hadm, Hrun. destruct Hadm as [Hpre Hrest].
    destruct (filesReducer s a) as [s1|e] eqn:Hstep; [|done]. simpl in Hrun.
    apply (IH s1); [by eapply step_store_inv| | |done|done].
    + pose proof (step_nextId_mono s a s1 Hstep). lia.
    + pose proof Hinv as (_ & Hnd & _).
      destruct a as [h nm c|j c|j to h|j|j|nm];
        try (injection Hstep as <-; done).
      * injection Hstep as <-. unfold ids. simpl. rewrite fmap_app.
        intros [Hin|Hin%list_elem_of_singleton]%elem_of_app; [done|]. simpl in Hin. lia.
      * simpl in Hpre. apply elem_of_ids in Hpre as (k & r & Hk & <-).
        rewrite (rename_known s k r to h Hnd Hk) in Hstep. injection Hstep as <-.
        unfold ids. simpl. by rewrite (ids_rename s k r to Hk).
      * assert (s1 = afterRemove s j (selected s1)) as ->.
        { simpl in Hstep. destruct (decide _); simpl in Hstep.
          - destruct (property _ _ _); simpl in Hstep; [|done].
            by injection Hstep as <-.
          - by injection Hstep as <-. }
        intros [Hin _]%elem_of_ids_filter. done.
Qed.
End store_extras.

Section handle_discipline.
Implicit Types (s : FilesState) (i j : FileId) (r : FileRecord).

Lemma has_handle_insert_eq s' s i h :
  handles s' = <[i := h]> (handles s) → has_handle s' i ↔ h ≠ None.
Proof.
  intros Hh. unfold has_handle. rewrite Hh, lookup_insert_eq. simpl.
  destruct h as [h0|]; simpl; split; intros Hx; try done;
    try (by eexists); by destruct Hx.
Qed.

Lemma handleMatchesName_record nm h :
  handleMatchesName nm h → h ≠ None ↔ nm ≠ SETTINGS_FILE_NAME.
Proof. unfold handleMatchesName. tauto. Qed.

Lemma step_handle_by_name s a s' :
  store_inv s → inv_handle_by_name s →
  precondition s a → bridgeShaped a →
  filesReducer s a = Normal s' →
  inv_handle_by_name s'.
Proof.
  intros Hinv Hby Hpre Hshape Hstep.
  pose proof Hinv as (_ & Hnd & _ & Hlt).
  unfold inv_handle_by_name in *.
  destruct a as [h nm c|i c|i to h|i|i|nm];
    try (injection Hstep as <-; simpl; done).
  - injection Hstep as <-. simpl in *. apply Forall_app. split.
    + apply Forall_forall. intros file Hin.
      rewrite has_handle_insert_ne; [by apply (proj1 (Forall_forall _ _) Hby)|done|].
      intros Heq.
      assert (nextId s ∈ ids s) as Hin'
        by (unfold ids; apply list_elem_of_fmap; eauto).
      apply (proj1 (Forall_forall _ _) Hlt) in Hin'. lia.
    + apply Forall_singleton. simpl.
      rewrite has_handle_insert_eq by done.
      by apply handleMatchesName_record.
  - simpl in Hpre. apply elem_of_ids in Hpre as (k & r & Hk & <-).
    rewrite (rename_known s k r to h Hnd Hk) in Hstep. injection Hstep as <-.
    simpl in *. apply Forall_forall. intros file Hin.
    apply (elem_of_insert_other _ _ r _ _ Hnd Hk) in Hin as [->|[Hin Hne]].
    + simpl. rewrite has_handle_insert_eq by done.
      by apply handleMatchesName_record.
    + rewrite has_handle_insert_ne; [|done|done].
      by apply (proj1 (Forall_forall _ _) Hby).
  - assert (s' = afterRemove s i (selected s')) as ->.
    { simpl in Hstep. destruct (decide _); simpl in Hstep.
      - destruct (property _ _ _); simpl in Hstep; [|done].
        by injection Hstep as <-.
      - by injection Hstep as <-. }
    simpl. apply Forall_forall. intros file [Hne Hin]%list_elem_of_filter.
    unfold has_handle. simpl. rewrite lookup_delete_ne by done.
    by apply (proj1 (Forall_forall _ _) Hby).
Qed.

Lemma run_handle_by_name actions s s' :
  store_inv s → inv_handle_by_name s →
  admissible precondition s actions → Forall bridgeShaped actions →
  dispatchAll s actions = Normal s' → inv_handle_by_name s'.
Proof.
  revert s. induction actions as [|a rest IH]; intros s Hinv Hby Hadm Hshape Hrun.
  - by injection Hrun as <-.
  - simpl in Hadm, Hrun. destruct Hadm as [Hpre Hrest].
    apply Forall_cons in Hshape as [Ha Hshape].
    destruct (filesReducer s a) as [s1|e] eqn:Hstep; [|done].
    eapply IH; [| |exact Hrest|exact Hshape|exact Hrun].
    + by eapply step_store_inv.
    + by eapply step_handle_by_name.
Qed.

Lemma handle_by_name_no_handle s :
  inv_handle_by_name s → inv_settings_no_handle s.
Proof.
  intros Hby. eapply Forall_impl; [exact Hby|]. simpl. intros file Hiff Hs Hh.
  by apply Hiff in Hh.
Qed.

(** X7: when every [add] and [rename] of a run carries a handle exactly
    for names other than the reserved one, every record of the resulting
    state has a handle exactly when it does not bear the reserved name;
    in particular the reserved file has none. *)
Theorem X7_handle_by_name_along_runs actions s' :
  admissible precondition initialFiles actions →
  Forall bridgeShaped actions →
  dispatchAll initialFiles actions = Normal s' →
  inv_handle_by_name s' ∧ inv_settings_no_handle s'.
Proof.
  intros Hadm Hshape Hrun.
  assert (inv_handle_by_name s') as Hby.
  { eapply run_handle_by_name; [apply initialFiles_store_inv| |done..].
    apply Forall_nil_2. }
  split; [done|]. by apply handle_by_name_no_handle.
Qed.
End handle_discipline.

Section serialize_extras.
Implicit Types (s fs : FilesState) (r : FileRecord).

Lemma serialize_fold_None fs acc l :
  (foldl (serializeStep fs) acc l).2 = None ↔
  acc.2 = None ∧ Forall (λ file, selected fs ≠ Some (id file)) l.
Proof.
  revert acc. induction l as [|r l IH]; intros acc; simpl.
  - split; [intros ?; split; [done|constructor]|by intros [? _]].
  - rewrite IH, Forall_cons. simpl.
    destruct (decide (selected fs = Some (id r))) as [Heq|Hne]; simpl.
    + split; [by intros [? _]|]. by intros (_ & Hx & _).
    + tauto.
Qed.

(** X8: [serializeFiles] returns none exactly when no record of the index
    has the selected id, which covers the empty session, no selection and
    a selection that names no record. *)
Theorem X8_serializeFiles_None_iff fs :
  serializeFiles fs = None ↔
  Forall (λ file, selected fs ≠ Some (id file)) (index fs).
Proof.
  rewrite serializeFiles_eq.
  destruct (foldl _ _ _).2 as [cur|] eqn:Hsel.
  - split; [done|]. intros Hall.
    assert ((foldl (serializeStep fs) (∅, None) (index fs)).2 = None) as Hnone
      by by apply serialize_fold_None.
    congruence.
  - split; [|done]. intros _. by apply serialize_fold_None in Hsel as [_ ?].
Qed.

Lemma foldl_insertEntry_absent {V} (es : list (string * V)) m nm :
  nm ∉ es.*1 → foldl insertEntry m es !! nm = m !! nm.
Proof.
  revert m. induction es as [|[k v] es IH]; intros m Hnot; simpl; [done|].
  rewrite fmap_cons, not_elem_of_cons in Hnot. destruct Hnot as [Hne Hnot].
  rewrite IH by done. unfold insertEntry. simpl. by rewrite lookup_insert_ne.
Qed.

Lemma serializeFiles_files fs snap :
  serializeFiles fs = Some snap → files snap = foldl insertEntry ∅ (listing fs).
Proof.
  rewrite serializeFiles_eq. destruct (foldl _ _ _).2; [|done].
  intros [= <-]. simpl. by rewrite foldl_insertEntry.
Qed.

(** X9: in the snapshot a name maps to the content of the last record
    bearing it (earlier records of the same name are lost), and a name
    that no record bears is not a key. *)
Theorem X9_serializeFiles_last_wins fs snap :
  serializeFiles fs = Some snap →
  (∀ k r, index fs !! k = Some r →
          (∀ j r', index fs !! j = Some r' → (k < j)%nat → name r' ≠ name r) →
          files snap !! name r = Some (contents fs !! id r)) ∧
  (∀ nm, nm ∉ name <$> index fs → files snap !! nm = None).
Proof.
  intros Hser. rewrite (serializeFiles_files fs snap Hser). split.
  - intros k r Hk Hlast. unfold listing.
    rewrite <- (take_drop_middle _ _ _ Hk), fmap_app, fmap_cons, foldl_app.
    simpl. rewrite foldl_insertEntry_absent.
    + unfold insertEntry. simpl. by rewrite lookup_insert_eq.
    + rewrite <- list_fmap_compose. intros (r' & Hname & Hr')%list_elem_of_fmap.
      apply list_elem_of_lookup in Hr' as [j Hj]. rewrite lookup_drop in Hj.
      apply (Hlast _ _ Hj); [lia|done].
  - intros nm Hnot. rewrite foldl_insertEntry_absent; [done|].
    unfold listing. by rewrite <- list_fmap_compose.
Qed.
End serialize_extras.

Section bridge_extras.
Context `{Env : Environment}.
Implicit Types (w : World) (files : FilesState) (file sel : FileId).

Lemma renamedFrom_run files workspace file newName w1 :
  renamedFrom files file newName w1
    (seqThrow
       (if decide (newName = SETTINGS_FILE_NAME)
        then seq (updateOptions (Some workspace) (contents files !! file))
                 (λ _ w, (Normal None, w))
        else seqThrow (openFile newName (contents files !! file))
                      (λ h w, (Normal (Some h), w)))
       (λ newHandle,
          returning (dispatchFiles (rename file newName newHandle))) w1).
Proof.
  unfold renamedFrom. rewrite seqThrow_run.
  destruct (decide (newName = SETTINGS_FILE_NAME)) as [Hs|Hs].
  - rewrite seq_run. simpl. rewrite ?returning_run. simpl.
    destruct (updateOptions_calls (Some workspace) (contents files !! file) w1)
      as (mid & Hmid & Hall).
    exists mid. rewrite Hmid, <- app_assoc. done.
  - rewrite seqThrow_run, openFile_run. simpl.
    destruct (Workspace_openFile (engine w1) newName (contents files !! file))
      as [[new|e] eng']; simpl.
    + rewrite ?returning_run. simpl. by rewrite <- app_assoc.
    + done.
Qed.

(** X10: [handleFileRenamed] first releases the old file: it closes the
    handle the record holds or, without one, makes option updates only.
    When [closeFile] throws, the handler ends there with that exception:
    nothing is opened and nothing is dispatched.  Otherwise it goes on
    from the world after the release as [renamedFrom] says: for the
    reserved name, option updates and then the dispatch of [rename]
    without a handle; for another name, [openFile] with the new name and
    the stored content and then, when the engine returns a handle, the
    dispatch of [rename] with that very handle as last event; when
    [openFile] throws, the handler ends with that exception and
    dispatches nothing. *)
Theorem X10_handleFileRenamed_order files workspace file newName w :
  match mjoin (handles files !! file) with
  | Some h =>
      match Workspace_closeFile (engine w) h with
      | (Normal _, eng') =>
          renamedFrom files file newName (emit (CallCloseFile h) eng' w)
            (handleFileRenamed files workspace file newName w)
      | (Throw e, eng') =>
          (handleFileRenamed files workspace file newName w).1 = Throw e ∧
          engine (handleFileRenamed files workspace file newName w).2 = eng' ∧
          log (handleFileRenamed files workspace file newName w).2
            = log w ++ [CallCloseFile h]
      end
  | None =>
      ∃ pre, Forall isUpdateOptions pre ∧
             log (updateOptions (Some workspace) None w).2 = log w ++ pre ∧
             renamedFrom files file newName
               (updateOptions (Some workspace) None w).2
               (handleFileRenamed files workspace file newName w)
  end.
Proof.
  unfold handleFileRenamed. rewrite seqThrow_run.
  destruct (mjoin (handles files !! file)) as [h|].
  - rewrite closeFile_run. simpl.
    destruct (Workspace_closeFile (engine w) h) as [[[]|e] eng']; simpl.
    + apply renamedFrom_run.
    + done.
  - rewrite ?returning_run. simpl.
    destruct (updateOptions_calls (Some workspace) None w) as (pre & Hpre & Hall).
    exists pre. split_and!; [done|done|]. apply renamedFrom_run.
Qed.

(** X11: [handleFileRemoved] closes the handle of the file and then
    dispatches [remove]; when [closeFile] throws, the handler ends with
    that exception and the call is the last event: [remove] is not
    dispatched.  Without a handle it makes option updates only, then
    dispatches [remove], and returns. *)
Theorem X11_handleFileRemoved_order files workspace file w :
  match mjoin (handles files !! file) with
  | Some h =>
      match Workspace_closeFile (engine w) h with
      | (Normal _, eng') =>
          (handleFileRemoved files workspace file w).1 = Normal () ∧
          engine (handleFileRemoved files workspace file w).2 = eng' ∧
          log (handleFileRemoved files workspace file w).2
            = log w ++ [CallCloseFile h; Dispatch (remove file)]
      | (Throw e, eng') =>
          (handleFileRemoved files workspace file w).1 = Throw e ∧
          engine (handleFileRemoved files workspace file w).2 = eng' ∧
          log (handleFileRemoved files workspace file w).2
            = log w ++ [CallCloseFile h]
      end
  | None =>
      ∃ pre, Forall isUpdateOptions pre ∧
             (handleFileRemoved files workspace file w).1 = Normal () ∧
             log (handleFileRemoved files workspace file w).2
               = log w ++ pre ++ [Dispatch (remove file)]
  end.
Proof.
  unfold handleFileRemoved. rewrite seqThrow_run.
  destruct (mjoin (handles files !! file)) as [h|].
  - rewrite closeFile_run. simpl.
    destruct (Workspace_closeFile (engine w) h) as [[[]|e] eng']; simpl.
    + rewrite ?returning_run. simpl. by rewrite <- app_assoc.
    + done.
  - rewrite ?returning_run. simpl.
    destruct (updateOptions_calls (Some workspace) None w) as (pre & Hpre & Hall).
    exists pre. rewrite Hpre, <- app_assoc. done.
Qed.

(** X12: for the reserved name [handleFileAdded] makes option updates
    only and dispatches [add] without a handle.  For any other name it
    calls [openFile] with empty content; when the engine returns a handle,
    the next and last event is the dispatch of [add] with that very
    handle and empty content; when [openFile] throws, the handler ends
    with that exception and dispatches nothing. *)
Theorem X12_handleFileAdded_order files workspace nm w :
  if decide (nm = SETTINGS_FILE_NAME)
  then ∃ pre, Forall isUpdateOptions pre ∧
              (handleFileAdded files workspace nm w).1 = Normal () ∧
              log (handleFileAdded files workspace nm w).2
                = log w ++ pre ++ [Dispatch (add None nm EmptyString)]
  else match Workspace_openFile (engine w) nm (Some EmptyString) with
       | (Normal h, eng') =>
           (handleFileAdded files workspace nm w).1 = Normal () ∧
           engine (handleFileAdded files workspace nm w).2 = eng' ∧
           log (handleFileAdded files workspace nm w).2
             = log w ++ [CallOpenFile nm (Some EmptyString);
                         Dispatch (add (Some h) nm EmptyString)]
       | (Throw e, eng') =>
           (handleFileAdded files workspace nm w).1 = Throw e ∧
           engine (handleFileAdded files workspace nm w).2 = eng' ∧
           log (handleFileAdded files workspace nm w).2
             = log w ++ [CallOpenFile nm (Some EmptyString)]
       end.
Proof.
  unfold handleFileAdded. rewrite seqThrow_run.
  destruct (decide (nm = SETTINGS_FILE_NAME)) as [Hs|Hs].
  - rewrite seq_run. simpl. rewrite ?returning_run. simpl.
    destruct (updateOptions_calls (Some workspace) (Some "{}") w)
      as (pre & Hpre & Hall).
    exists pre. by rewrite Hpre, <- app_assoc.
  - rewrite seqThrow_run, openFile_run. simpl.
    destruct (Workspace_openFile (engine w) nm (Some EmptyString))
      as [[h|e] eng']; simpl.
    + rewrite ?returning_run. simpl. by rewrite <- app_assoc.
    + done.
Qed.

(** X13: [handleFileChanged] does nothing without a selection; otherwise
    it dispatches [change] first and calls the engine afterwards:
    [updateFile] on the handle, or option updates only when the selection
    has no handle, none at all unless it shows the reserved name. *)
Theorem X13_handleFileChanged_order files workspace content w :
  match selected files with
  | None => (handleFileChanged files workspace content w).2 = w
  | Some sel =>
      ∃ post,
        log (handleFileChanged files workspace content w).2 =
          log w ++ Dispatch (change sel content) :: post ∧
        match mjoin (handles files !! sel) with
        | Some h => post = [CallUpdateFile h content]
        | None =>
            Forall isUpdateOptions post ∧
            (fileName files ≠ SETTINGS_FILE_NAME → post = [])
        end
  end.
Proof.
  unfold handleFileChanged. destruct (selected files) as [sel|]; [|done].
  rewrite seq_run. simpl.
  destruct (mjoin (handles files !! sel)) as [h|].
  - unfold updateFile. rewrite seq_run. unfold callUpdateFile. simpl.
    destruct (Workspace_updateFile _ _ _) as [[[]|e] eng']; simpl;
      (eexists [_]; split; [|done]); by rewrite <- app_assoc.
  - destruct (decide (fileName files = SETTINGS_FILE_NAME)) as [Hs|Hs].
    + match goal with |- context [updateOptions ?a ?b ?w1] =>
        destruct (updateOptions_calls a b w1) as (post & Hpost & Hall) end.
      exists post. rewrite Hpost. simpl. rewrite <- app_assoc.
      split; [done|]. split; [done|]. by intros ?.
    + exists []. simpl. split; [done|]. split; [constructor|done].
Qed.
End bridge_extras.

Section startup_extras.
Context `{Env : Environment}.
Implicit Types (w : World) (files : FilesState).

(** X15: start-up closes nothing.  When it returns, it has dispatched one
    [add] per entry, in order, then [selectFileByName], and opened exactly
    the entries whose name is not the reserved one, in order and with
    their content.  When it throws, an entry with another name than the
    reserved one failed to open: the [add]s dispatched are those of the
    entries before it, the failing [openFile] is the last one called, and
    [selectFileByName] is not dispatched.  Every [add] carries a handle
    exactly when its name is not the reserved one. *)
Theorem X15_startWorkspace_log workspace entries cur eng :
  ∃ done acts,
    addsFor done acts ∧ Forall bridgeShaped acts ∧
    closeCalls (log (startWorkspace workspace entries cur (freshWorld eng)).2) = [] ∧
    match (startWorkspace workspace entries cur (freshWorld eng)).1 with
    | Normal _ =>
        done = entries ∧
        dispatched (log (startWorkspace workspace entries cur (freshWorld eng)).2)
          = acts ++ [selectFileByName cur] ∧
        openCalls (log (startWorkspace workspace entries cur (freshWorld eng)).2)
          = opensFor entries
    | Throw e =>
        ∃ failed rest,
          entries = done ++ failed :: rest ∧
          failed.1 ≠ SETTINGS_FILE_NAME ∧
          dispatched (log (startWorkspace workspace entries cur (freshWorld eng)).2)
            = acts ∧
          openCalls (log (startWorkspace workspace entries cur (freshWorld eng)).2)
            = opensFor done ++ [(failed.1, Some failed.2)]
    end.
Proof. apply startWorkspace_events. Qed.

Lemma admissible_adds entries acts s tail :
  addsFor entries acts →
  (∀ s1, admissible precondition s1 tail) →
  admissible precondition s (acts ++ tail).
Proof.
  intros Hadds Htail. revert s.
  induction Hadds as [|e a entries acts [h ->] _ IH]; intros s; simpl; [done|].
  split; [done|]. apply IH.
Qed.

Lemma NoDup_names_one_settings (l : list FileRecord) :
  NoDup (name <$> l) → (length (filter is_settings l) ≤ 1)%nat.
Proof.
  induction l as [|r l IH]; intros Hnd; simpl; [lia|].
  rewrite fmap_cons in Hnd. apply NoDup_cons in Hnd as [Hnot Hnd].
  rewrite filter_cons. destruct (decide (is_settings r)) as [Hr|Hr]; [|by apply IH].
  rewrite (filter_none is_settings l); [simpl; lia|].
  apply Forall_forall. intros r' Hr' Hs. apply Hnot.
  unfold is_settings in *. rewrite Hr, <- Hs. apply list_elem_of_fmap. eauto.
Qed.


(** X16: the reducer throws on no start-up: the actions start-up
    dispatches always yield a session, which satisfies invariants 1 to 4
    and in which a record has a handle exactly when it does not bear the
    reserved name.  When start-up returns, the session has one record per
    file of the snapshot, and nothing is selected when the current name is
    not a file of the snapshot; when an [openFile] of start-up throws, the
    session has fewer records than the snapshot has files. *)
Theorem X16_restoreSession_well_formed eng (snap : Snapshot string) :
  ∃ s', restoreSession eng snap = Normal s' ∧
        well_formed s' ∧ inv_handle_by_name s' ∧
        (length (index s') ≤ size (files snap))%nat ∧
        match (startWorkspace the_workspace (Object_entries (files snap))
                 (current snap) (freshWorld eng)).1 with
        | Normal _ =>
            length (index s') = size (files snap) ∧
            (files snap !! current snap = None → selected s' = None)
        | Throw e => (length (index s') < size (files snap))%nat
        end.
Proof.
  unfold restoreSession.
  destruct (startWorkspace_events the_workspace (Object_entries (files snap))
              (current snap) eng) as (done & acts & Hadds & Hshape & _ & Hres).
  pose proof (Object_entries_all (files snap)) as Hperm.
  set (entries := Object_entries (files snap)) in *.
  assert (NoDup entries.*1) as Hnd
    by (rewrite Hperm; apply NoDup_fst_map_to_list).
  assert (length entries = size (files snap)) as Hsize
    by (rewrite Hperm; apply length_map_to_list).
  destruct (adds_run _ _ initialFiles Hadds initialFiles_store_inv)
    as (s1 & Hrun & Hinv1 & Hl).
  simpl in Hl.
  assert (name <$> index s1 = done.*1) as Hnames.
  { replace (name <$> index s1) with ((listing s1).*1)
      by (unfold listing; rewrite <- list_fmap_compose; done).
    rewrite Hl, <- !list_fmap_compose.
    apply list_fmap_ext. by intros k [nm c] _. }
  assert (length (index s1) = length done) as Hlen
    by (by rewrite <- (length_fmap name), Hnames, length_fmap).
  assert (∀ tail s',
            (∀ s0, admissible precondition s0 tail) → Forall bridgeShaped tail →
            dispatchAll initialFiles (acts ++ tail) = Normal s' →
            index s' = index s1 → NoDup done.*1 →
            well_formed s' ∧ inv_handle_by_name s') as Hwf.
  { intros tail s' Htail Hsh Hall Hix Hnd'.
    assert (admissible precondition initialFiles (acts ++ tail)) as Hadm
      by (by apply (admissible_adds done)).
    assert (Forall bridgeShaped (acts ++ tail)) as Hsh'
      by (apply Forall_app; by split).
    pose proof (run_store_inv _ _ _ initialFiles_store_inv Hadm Hall)
      as (Hm & Hu & Hsel & _).
    assert (inv_handle_by_name s') as Hby.
    { eapply run_handle_by_name;
        [apply initialFiles_store_inv|apply Forall_nil_2|done..]. }
    split; [|done]. unfold well_formed, inv_settings. split_and!; try done.
    - unfold inv_one_settings. rewrite Hix.
      apply NoDup_names_one_settings. by rewrite Hnames.
    - by apply handle_by_name_no_handle. }
  destruct (startWorkspace the_workspace entries (current snap) (freshWorld eng)).1
    as [[]|e].
  - destruct Hres as (-> & -> & _).
    destruct (dispatchAll initialFiles (acts ++ [selectFileByName (current snap)]))
      as [s'|e] eqn:Hall.
    2: { rewrite dispatchAll_app, Hrun in Hall. done. }
    pose proof Hall as Hall'.
    rewrite dispatchAll_app, Hrun in Hall'. simpl in Hall'.
    injection Hall' as Hs'.
    assert (index s' = index s1) as Hix by (rewrite <- Hs'; reflexivity).
    assert (selected s' =
              id <$> find (λ file, bool_decide (name file = current snap)) (index s1))
      as Hse by (rewrite <- Hs'; reflexivity).
    exists s'. split; [done|].
    destruct (Hwf [selectFileByName (current snap)] s') as [Hw Hby]; try done.
    { by apply Forall_singleton. }
    rewrite Hix, Hlen, Hsize. split_and!; try done.
    intros Hnone. rewrite Hse, find_none; [done|].
    apply Forall_forall. intros r Hr. apply bool_decide_eq_false_2. intros Hname.
    apply not_elem_of_dom in Hnone. apply Hnone, elem_of_dom.
    assert (current snap ∈ entries.*1) as Hin.
    { rewrite <- Hnames, <- Hname. apply list_elem_of_fmap. eauto. }
    apply list_elem_of_fmap in Hin as ([nm c] & -> & Hin).
    rewrite Hperm in Hin. apply elem_of_map_to_list in Hin. by eexists.
  - destruct Hres as (failed & rest & Hsplit & _ & -> & _).
    exists s1. split; [done|].
    assert (length entries = (length done + S (length rest))%nat) as Hcount
      by (rewrite Hsplit, length_app; simpl; lia).
    destruct (Hwf [] s1) as [Hw Hby]; try done.
    { by rewrite app_nil_r. }
    { rewrite Hsplit, fmap_app in Hnd. by apply NoDup_app in Hnd as [? _]. }
    rewrite Hlen, <- Hsize, Hcount. split_and!; try done; lia.
Qed.
End startup_extras.

Lemma substring_all (m : string) : String.substring 0 (String.length m) m = m.
Proof. induction m as [|c m IH]; simpl; [done|]. by rewrite IH. Qed.

(** X17: [formatError] removes one leading [Error: ] from the message of
    the thrown value and returns any other message unchanged. *)
Theorem X17_formatError_strips_one_prefix (e : thrown) :
  (∀ m, errorMessage e = "Error: " +:+ m → formatError e = m) ∧
  (String.prefix "Error: " (errorMessage e) = false →
   formatError e = errorMessage e).
Proof.
  unfold formatError. split.
  - intros m ->. simpl. change (EmptyString +:+ m) with m.
    assert (String.prefix EmptyString m = true) as -> by (by destruct m).
    rewrite Nat.sub_0_r. apply substring_all.
  - by intros ->.
Qed.

Section analysis_extras.
Context `{Env : Environment}.

(** X18: when [useCheckResult] reports an error, the diagnostics are empty
    and the secondary result is none, and the error is the formatted
    message thrown by the engine's check of the selected file's handle. *)
Theorem X18_useCheckResult_error (files : FilesState) (workspace : Workspace)
    (tool : option SecondaryTool) (deferredContent : option string) (msg : string) :
  checkError (useCheckResult files workspace tool deferredContent) = Some msg →
  diagnostics (useCheckResult files workspace tool deferredContent) = [] ∧
  secondary (useCheckResult files workspace tool deferredContent) = None ∧
  ∃ sel h e, selected files = Some sel ∧
             mjoin (handles files !! sel) = Some h ∧
             Workspace_checkFile workspace h = Throw e ∧
             msg = formatError e.
Proof.
  unfold useCheckResult.
  destruct (selected files) as [sel|] eqn:Hsel; [|by simpl].
  destruct deferredContent as [content|]; [|by simpl].
  destruct (mjoin (handles files !! sel)) as [h|] eqn:Hh; [|by simpl].
  destruct (isPythonFile h); [|by simpl].
  destruct (Workspace_checkFile workspace h) as [ds|e] eqn:Hcheck; [by simpl|].
  simpl. intros [= <-]. split_and!; [done..|]. by exists sel, h, e.
Qed.

(** X19: the diagnostics and the error of [useCheckResult] do not depend
    on the secondary tool. *)
Theorem X19_useCheckResult_primary_independent (files : FilesState)
    (workspace : Workspace) (tool1 tool2 : option SecondaryTool)
    (deferredContent : option string) :
  diagnostics (useCheckResult files workspace tool1 deferredContent) =
    diagnostics (useCheckResult files workspace tool2 deferredContent) ∧
  checkError (useCheckResult files workspace tool1 deferredContent) =
    checkError (useCheckResult files workspace tool2 deferredContent).
Proof.
  unfold useCheckResult.
  destruct (selected files) as [sel|]; [|done].
  destruct deferredContent as [content|]; [|done].
  destruct (mjoin (handles files !! sel)) as [h|]; [|done].
  destruct (isPythonFile h); [|done].
  by destruct (Workspace_checkFile workspace h).
Qed.

Lemma dispatched_snoc_shaped (l : list Event) (pre : list Event) a :
  Forall bridgeShaped (dispatched l) → dispatched pre = [] → bridgeShaped a →
  Forall bridgeShaped (dispatched (l ++ pre ++ [Dispatch a])).
Proof.
  intros Hl Hpre Ha. rewrite !dispatched_app, Hpre. simpl.
  apply Forall_app. split; [done|]. by apply Forall_singleton.
Qed.

(** X14: whatever the session, each handler adds to the dispatched actions
    only actions that carry a handle exactly for names other than the
    reserved one. *)
Theorem X14_handlers_dispatch_bridgeShaped (files : FilesState)
    (workspace : WorkspaceRef) (w : World) :
  Forall bridgeShaped (dispatched (log w)) →
  (∀ nm, Forall bridgeShaped
           (dispatched (log (handleFileAdded files workspace nm w).2))) ∧
  (∀ file newName,
     Forall bridgeShaped
       (dispatched (log (handleFileRenamed files workspace file newName w).2))) ∧
  (∀ file, Forall bridgeShaped
             (dispatched (log (handleFileRemoved files workspace file w).2))) ∧
  (∀ content, Forall bridgeShaped
                (dispatched (log (handleFileChanged files workspace content w).2))) ∧
  (∀ file, Forall bridgeShaped (dispatched (log (handleFileSelected file w).2))).
Proof.
  intros Hw.
  assert (∀ pre, dispatched pre = [] →
            Forall bridgeShaped (dispatched (log w ++ pre))) as Hquiet.
  { intros pre Hpre. by rewrite dispatched_app, Hpre, app_nil_r. }
  split_and!.
  - intros nm. unfold handleFileAdded. rewrite seqThrow_run.
    destruct (decide (nm = SETTINGS_FILE_NAME)) as [Hs|Hs].
    + rewrite seq_run. simpl. rewrite ?returning_run. simpl.
      destruct (updateOptions_log (Some workspace) (Some "{}") w)
        as (pre & Hpre & Hnone).
      rewrite Hpre, <- app_assoc. by apply dispatched_snoc_shaped.
    + rewrite seqThrow_run, openFile_run. simpl.
      destruct (Workspace_openFile (engine w) nm (Some EmptyString))
        as [[h|e] eng']; simpl.
      * rewrite ?returning_run. simpl. rewrite <- app_assoc.
        apply dispatched_snoc_shaped; [done|done|].
        simpl. split; [done|]. by intros ?.
      * by apply Hquiet.
  - intros file newName. unfold handleFileRenamed. rewrite seqThrow_run.
    assert (∀ w1 pre, log w1 = log w ++ pre → dispatched pre = [] →
              Forall bridgeShaped
                (dispatched
                   (log (seqThrow
                           (if decide (newName = SETTINGS_FILE_NAME)
                            then seq (updateOptions (Some workspace)
                                        (contents files !! file))
                                     (λ _ w, (Normal None, w))
                            else seqThrow
                                   (openFile newName (contents files !! file))
                                   (λ h w, (Normal (Some h), w)))
                           (λ newHandle,
                              returning
                                (dispatchFiles (rename file newName newHandle)))
                           w1).2))) as Hrest.
    { intros w1 pre Hpre Hnone.
      pose proof (renamedFrom_run files workspace file newName w1) as Hr.
      unfold renamedFrom in Hr.
      destruct (decide (newName = SETTINGS_FILE_NAME)) as [Hs|Hs].
      - destruct Hr as (mid & Hmid & _ & ->). rewrite Hpre, <- !app_assoc.
        rewrite (app_assoc pre). apply dispatched_snoc_shaped; [done| |done].
        by rewrite dispatched_app, Hnone, (isUpdateOptions_dispatched mid).
      - destruct (Workspace_openFile (engine w1) newName (contents files !! file))
          as [[new|e] eng'].
        + destruct Hr as (_ & _ & ->). rewrite Hpre, <- !app_assoc.
          change (?a :: [?b]) with ([a] ++ [b]). rewrite (app_assoc pre).
          apply dispatched_snoc_shaped; [done| |].
          * by rewrite dispatched_app, Hnone.
          * simpl. split; [done|]. by intros ?.
        + destruct Hr as (_ & _ & ->). rewrite Hpre, <- !app_assoc.
          apply Hquiet. by rewrite dispatched_app, Hnone. }
    destruct (mjoin (handles files !! file)) as [h|].
    + rewrite closeFile_run. simpl.
      destruct (Workspace_closeFile (engine w) h) as [[[]|e] eng']; simpl.
      * by apply (Hrest _ [CallCloseFile h]).
      * by apply Hquiet.
    + rewrite ?returning_run. simpl.
      destruct (updateOptions_log (Some workspace) None w) as (pre & Hpre & Hnone).
      by apply (Hrest _ pre).
  - intros file. unfold handleFileRemoved. rewrite seqThrow_run.
    destruct (mjoin (handles files !! file)) as [h|].
    + rewrite closeFile_run. simpl.
      destruct (Workspace_closeFile (engine w) h) as [[[]|e] eng']; simpl.
      * rewrite ?returning_run. simpl. rewrite <- app_assoc.
        by apply (dispatched_snoc_shaped _ [CallCloseFile h]).
      * by apply Hquiet.
    + rewrite ?returning_run. simpl.
      destruct (updateOptions_log (Some workspace) None w) as (pre & Hpre & Hnone).
      rewrite Hpre, <- app_assoc. by apply dispatched_snoc_shaped.
  - intros content. unfold handleFileChanged.
    destruct (selected files) as [sel|]; [|done].
    rewrite seq_run. simpl.
    assert (Forall bridgeShaped
              (dispatched (log w ++ [Dispatch (change sel content)]))) as Hw'.
    { rewrite dispatched_app. apply Forall_app. split; [done|].
      by apply Forall_singleton. }
    destruct (mjoin (handles files !! sel)) as [h|].
    + unfold updateFile. rewrite seq_run. unfold callUpdateFile. simpl.
      destruct (Workspace_updateFile _ _ _) as [[[]|e] eng']; simpl;
        rewrite dispatched_app; simpl; by rewrite app_nil_r.
    + destruct (decide _); [|done].
      match goal with |- context [updateOptions ?a ?b ?w1] =>
        destruct (updateOptions_log a b w1) as (post & Hpost & Hnone) end.
      rewrite Hpost. simpl. by rewrite dispatched_app, Hnone, app_nil_r.
  - intros file. simpl. rewrite dispatched_app. simpl.
    apply Forall_app. split; [done|]. by apply Forall_singleton.
Qed.
End analysis_extras.

Lemma three_files_unique : inv_unique three_files.
Proof. apply (bool_decide_unpack _); vm_compute; reflexivity. Qed.

Lemma X1_selectFileByName_fileName_witness :
  ∃ s', filesReducer three_files (selectFileByName "b.py") = Normal s' ∧
        fileName s' = "b.py".
Proof.
  destruct (X1_selectFileByName_fileName three_files "b.py" three_files_unique)
    as (s' & Hrun & Hin & _).
  exists s'. split; [exact Hrun|]. apply Hin.
  apply (bool_decide_unpack _); vm_compute; reflexivity.
Defined.

Lemma X2_rename_selected_fileName_witness :
  ∃ s', filesReducer three_files (rename 1 "c.py" (Some (file_handle 3)))
          = Normal s' ∧
        fileName s' = "c.py" ∧ selected s' = Some 1 ∧
        ids s' = ids three_files ∧ contents s' = contents three_files.
Proof.
  apply (X2_rename_selected_fileName three_files 1 "c.py" (Some (file_handle 3))
           three_files_unique).
  - apply (bool_decide_unpack _); vm_compute; reflexivity.
  - reflexivity.
Defined.

Lemma X3_rename_unknown_id_witness :
  ∃ s', filesReducer three_files (rename 9 "x.py" None) = Normal s' ∧
        index s' = [{| id := 0; name := "a.py" |}; {| id := 1; name := "b.py" |};
                    {| id := 9; name := "x.py" |}].
Proof.
  eexists. split.
  - apply (X3_rename_unknown_id three_files 9 "x.py" None).
    apply (bool_decide_unpack _); vm_compute; reflexivity.
  - reflexivity.
Defined.

Lemma X4_remove_throws_iff_witness :
  (∃ e, filesReducer one_file (remove 0) = Throw e) ↔
  (selected one_file = Some 0 ∧ length (index one_file) = 1%nat).
Proof.
  destruct one_file_invariants as [(_ & Hu & _) _].
  apply (X4_remove_throws_iff one_file 0 Hu).
  apply (bool_decide_unpack _); vm_compute; reflexivity.
Defined.

Lemma X5_counters_along_runs_witness :
  ∃ s', dispatchAll initialFiles sample_run = Normal s' ∧
        nextId s' = 3 ∧ revision s' = 6.
Proof.
  destruct (dispatchAll initialFiles sample_run) as [s'|e] eqn:Hrun;
    [|vm_compute in Hrun; discriminate].
  exists s'. split; [reflexivity|].
  exact (X5_counters_along_runs sample_run initialFiles s' Hrun).
Defined.

Lemma X6_ids_never_reused_witness :
  ∃ s s', dispatchAll initialFiles removal_run = Normal s ∧
          dispatchAll s later_run = Normal s' ∧
          (0 ∉ ids s').
Proof.
  destruct (dispatchAll initialFiles removal_run) as [s|e] eqn:Hrun;
    [|vm_compute in Hrun; discriminate].
  assert (store_inv s) as Hinv.
  { eapply run_store_inv; [apply initialFiles_store_inv| |exact Hrun].
    apply (bool_decide_unpack _); vm_compute; reflexivity. }
  vm_compute in Hrun. injection Hrun as <-.
  match goal with |- ∃ s0 s', Normal ?st = Normal s0 ∧ _ =>
    destruct (dispatchAll st later_run) as [s'|e] eqn:Hlater;
      [|vm_compute in Hlater; discriminate];
    exists st, s'; split; [reflexivity|]; split; [exact Hlater|];
    apply (X6_ids_never_reused later_run st s' 0 Hinv);
      [reflexivity
      |apply (bool_decide_unpack _); vm_compute; reflexivity
      |apply (bool_decide_unpack _); vm_compute; reflexivity
      |exact Hlater]
  end.
Defined.

Lemma X7_handle_by_name_along_runs_witness :
  ∃ s', dispatchAll initialFiles sample_run = Normal s' ∧
        inv_handle_by_name s' ∧ inv_settings_no_handle s'.
Proof.
  destruct (dispatchAll initialFiles sample_run) as [s'|e] eqn:Hrun;
    [|vm_compute in Hrun; discriminate].
  exists s'. split; [reflexivity|].
  apply (X7_handle_by_name_along_runs sample_run s'); [| |exact Hrun];
    apply (bool_decide_unpack _); vm_compute; reflexivity.
Defined.

Lemma X9_serializeFiles_last_wins_witness :
  ∃ snap, serializeFiles three_files = Some snap ∧
          files snap !! "a.py" = Some (Some "third") ∧
          files snap !! "c.py" = None.
Proof.
  destruct (serializeFiles three_files) as [snap|] eqn:Hser;
    [|vm_compute in Hser; discriminate].
  exists snap. split; [reflexivity|].
  destruct (X9_serializeFiles_last_wins three_files snap Hser) as [Hlast Habsent].
  split.
  - apply (Hlast 2%nat {| id := 2; name := "a.py" |}); [reflexivity|].
    intros j r' Hj Hlt. apply lookup_lt_Some in Hj. simpl in Hj. lia.
  - apply Habsent. apply (bool_decide_unpack _); vm_compute; reflexivity.
Defined.

Lemma X18_useCheckResult_error_witness :
  diagnostics (useCheckResult (Env := failing_stub) one_file
                 (0%N : @Workspace failing_stub) (Some AST) (Some "import os"))
    = [] ∧
  secondary (useCheckResult (Env := failing_stub) one_file
               (0%N : @Workspace failing_stub) (Some AST) (Some "import os"))
    = None.
Proof.
  destruct (X18_useCheckResult_error (Env := failing_stub) one_file
              (0%N : @Workspace failing_stub) (Some AST) (Some "import os")
              "salsa panicked" eq_refl) as (Hd & Hs & _).
  exact (conj Hd Hs).
Defined.

Lemma X14_handlers_dispatch_bridgeShaped_witness :
  Forall bridgeShaped
    (dispatched (log (handleFileAdded (Env := stub) one_file the_workspace
                        "knot.json" (freshWorld (0%N : @Workspace stub))).2)).
Proof.
  destruct (X14_handlers_dispatch_bridgeShaped (Env := stub) one_file the_workspace
              (freshWorld (0%N : @Workspace stub)) (Forall_nil_2 _))
    as (Hadd & _).
  exact (Hadd "knot.json").
Defined.
